(** * kss-cssdoc-node: [lib/parse.js]

    A shallow embedding of the comment-block extractor
    ([findCommentBlocks]), of the modifier / parameter mini-grammar
    ([createModifiers], [createParameters]) and of the section builder
    ([parse]), followed by the properties of the style-guide specification
    that are about them.

    Strings are sequences of code units; the development keeps to code
    units below 256, so a string is a [list ascii].  String literals are
    read through the coercion [list_ascii_of_string]. *)

From Stdlib Require Import Ascii String List ZArith Lia Bool Sorted.
From stdpp Require Import gmap strings list fin_maps option.

Coercion list_ascii_of_string : string >-> list.
Open Scope string_scope.
Open Scope list_scope.

Abbreviation str := (list ascii).

(* ===================================================================== *)
(** ** Characters and the regular expressions of the source               *)
(* ===================================================================== *)

Definition LF : ascii := "010"%char.
Definition CR : ascii := "013"%char.

(** The class [\s] on code units below 256: TAB, LF, VT, FF, CR, SPACE and
    NO-BREAK SPACE. *)
Definition is_space (c : ascii) : bool :=
  match c with
  | "009"%char | "010"%char | "011"%char | "012"%char | "013"%char
  | " "%char | "160"%char => true
  | _ => false
  end.

Definition is_lf (c : ascii) : bool := Ascii.eqb c LF.

(** [s.replace(/a/g, b)] for single characters [a] and [b]. *)
Definition replace_char (a b : ascii) (s : str) : str :=
  map (fun c => if Ascii.eqb c a then b else c) s.

(** [s.replace(/\r\n/g, '\n')]. *)
Fixpoint replace_crlf (s : str) : str :=
  match s with
  | [] => []
  | c :: t =>
      if Ascii.eqb c CR then
        match t with
        | d :: t' => if Ascii.eqb d LF then LF :: replace_crlf t'
                     else c :: replace_crlf t
        | [] => [c]
        end
      else c :: replace_crlf t
  end.

(** [s.split('\n')]: the pieces between line feeds, the empty string giving
    one empty piece. *)
Fixpoint split_lf (s : str) : list str :=
  match s with
  | [] => [[]]
  | c :: t =>
      if is_lf c then [] :: split_lf t
      else match split_lf t with
           | l :: ls => (c :: l) :: ls
           | [] => [[c]]
           end
  end.

(** The longest run of [\s] at the start of a string, and what follows. *)
Fixpoint take_space (s : str) : str :=
  match s with
  | c :: t => if is_space c then c :: take_space t else []
  | [] => []
  end.

Fixpoint drop_space (s : str) : str :=
  match s with
  | c :: t => if is_space c then drop_space t else s
  | [] => []
  end.

(** [s.replace(/\s*$/, '')].  The expression is tried at each position from
    the left; it matches at the first position from which only white space
    follows, and the match runs to the end. *)
Fixpoint strip_trailing_space (s : str) : str :=
  match s with
  | [] => []
  | c :: t => if forallb is_space s then [] else c :: strip_trailing_space t
  end.

(** [s.replace(/^\n+/, '')] and [s.replace(/\n+$/, '')]. *)
Fixpoint strip_leading_lf (s : str) : str :=
  match s with
  | c :: t => if is_lf c then strip_leading_lf t else s
  | [] => []
  end.

Fixpoint strip_trailing_lf (s : str) : str :=
  match s with
  | [] => []
  | c :: t => if forallb is_lf s then [] else c :: strip_trailing_lf t
  end.

(** [commentRegex]: after the leading white space the delimiter, then only
    white space up to the end. *)
Definition docblockStart (l : str) : bool :=
  match drop_space l with
  | "/"%char :: "*"%char :: "*"%char :: rest => forallb is_space rest
  | _ => false
  end.

Definition multiStart (l : str) : bool :=
  match drop_space l with
  | "/"%char :: "*"%char :: "*"%char :: rest => forallb is_space rest
  | _ => false
  end.

Definition multiFinish (l : str) : bool :=
  match drop_space l with
  | "*"%char :: "/"%char :: rest => forallb is_space rest
  | _ => false
  end.

(** [l.replace(/^\s*\*\s?/, '')]: the comment marker, with the white space
    before it and at most one white-space character after it. *)
Definition strip_marker (l : str) : str :=
  match drop_space l with
  | "*"%char :: rest =>
      match rest with
      | c :: rest' => if is_space c then rest' else rest
      | [] => []
      end
  | _ => l
  end.

(** [l.replace(new RegExp('^' + indent), '')] for an [indent] made of white
    space: the literal prefix is removed when the line starts with it. *)
Fixpoint strip_indent (indent l : str) : option str :=
  match indent, l with
  | [], _ => Some l
  | a :: indent', c :: l' =>
      if Ascii.eqb a c then strip_indent indent' l' else None
  | _ :: _, [] => None
  end.

Definition replace_indent (indent l : str) : str :=
  match strip_indent indent l with
  | Some rest => rest
  | None => l
  end.

(* ===================================================================== *)
(** ** [findCommentBlocks]                                                *)
(* ===================================================================== *)

Record Block := mkBlock { line : nat; text : str; raw : str }.

Definition emptyBlock : Block := {| line := 0; text := []; raw := [] |}.

(** The variables of the loop.  [indentAmount] is [false] until captured. *)
Record Scan := mkScan {
  blocks : list Block;
  block : Block;
  indentAmount : option str;
  insideSingleBlock : bool;
  insideMultiBlock : bool;
  insideDocblock : bool
}.

Definition initScan : Scan :=
  {| blocks := []; block := emptyBlock; indentAmount := None;
     insideSingleBlock := false; insideMultiBlock := false;
     insideDocblock := false |}.

(** The test that ends the current block. *)
Definition closes (st : Scan) (l : str) : bool :=
  insideSingleBlock st
  || ((insideMultiBlock st || insideDocblock st) && multiFinish l).

(** Saving the current block and resetting the variables. *)
Definition saveBlock (st : Scan) : Scan :=
  {| blocks := blocks st ++
       [ {| line := line (block st);
            text := strip_trailing_lf (strip_leading_lf (text (block st)));
            raw := raw (block st) |} ];
     block := emptyBlock; indentAmount := None;
     insideSingleBlock := false; insideMultiBlock := false;
     insideDocblock := false |}.

Definition openBlock (i : nat) (l : str) (doc : bool) (st : Scan) : Scan :=
  {| blocks := blocks st;
     block := {| line := i + 1; text := text (block st);
                 raw := raw (block st) ++ l ++ [LF] |};
     indentAmount := indentAmount st;
     insideSingleBlock := insideSingleBlock st;
     insideMultiBlock := if doc then insideMultiBlock st else true;
     insideDocblock := if doc then true else insideDocblock st |}.

(** An interior line: [raw] grows by the line, [text] by [t] when given. *)
Definition addLine (l : str) (t : option str) (ind : option str) (st : Scan)
  : Scan :=
  {| blocks := blocks st;
     block := {| line := line (block st);
                 text := match t with
                         | Some t' => text (block st) ++ t' ++ [LF]
                         | None => text (block st)
                         end;
                 raw := raw (block st) ++ l ++ [LF] |};
     indentAmount := ind;
     insideSingleBlock := insideSingleBlock st;
     insideMultiBlock := insideMultiBlock st;
     insideDocblock := insideDocblock st |}.

(** What follows the end-of-block test in the body of the loop. *)
Definition scanLine (i : nat) (l : str) (st : Scan) : Scan :=
  if docblockStart l then openBlock i l true st
  else if insideDocblock st then
    addLine l (Some (strip_marker l)) (indentAmount st) st
  else if multiStart l then openBlock i l false st
  else if insideMultiBlock st then
    match indentAmount st with
    | None =>
        match l with
        | [] => addLine l None None st
        | _ :: _ =>
            let indent := take_space l in
            addLine l (Some (replace_indent indent l)) (Some indent) st
        end
    | Some indent =>
        addLine l (Some (replace_indent indent l)) (Some indent) st
    end
  else st.

(** The body of the loop for [lines[i]]. *)
Definition step (i : nat) (l0 : str) (st : Scan) : Scan :=
  let l := strip_trailing_space l0 in
  if closes st l then
    let doneWithCurrentLine := negb (insideSingleBlock st) in
    if doneWithCurrentLine then saveBlock st
    else scanLine i l (saveBlock st)
  else scanLine i l st.

Fixpoint scan (i : nat) (lines : list str) (st : Scan) : Scan :=
  match lines with
  | [] => st
  | l :: rest => scan (S i) rest (step i l st)
  end.

(** The lines the loop runs over: line endings made LF, one line feed
    appended, the result split at the line feeds. *)
Definition inputLines (input : str) : list str :=
  split_lf (replace_char CR LF (replace_crlf input) ++ [LF]).

Definition findCommentBlocks (input : str) : list Block :=
  blocks (scan 0 (inputLines input) initScan).


(** [t.includes(s)]. *)
Fixpoint starts_with (p s : str) : bool :=
  match p, s with
  | [], _ => true
  | a :: p', c :: s' => Ascii.eqb a c && starts_with p' s'
  | _ :: _, [] => false
  end.

Fixpoint includes (t s : str) : bool :=
  starts_with s t
  || match t with
     | [] => false
     | _ :: t' => includes t' s
     end.

(** [s.replace(/\s|\*/g, '')]: what the test suite compares block contents
    by, "disregarding whitespace and asterisks". *)
Definition significant (c : ascii) : bool :=
  negb (is_space c || Ascii.eqb c "*"%char).

Definition stripSpaceAndStars (s : str) : str := List.filter significant s.

(** The states the loop can be in: after some of the lines of some input. *)
Definition reachable (st : Scan) : Prop :=
  exists (input : str) (pre post : list str),
    inputLines input = pre ++ post /\ st = scan 0 pre initScan.

(** The lines of the input itself, before the line feed is appended. *)
Definition sourceLines (input : str) : list str :=
  split_lf (replace_char CR LF (replace_crlf input)).

(** The invariant of the loop: no single-line and no multi-line block is
    open, no indentation is captured, and outside a doc block the current
    block is the empty one. *)
Definition scanInv (st : Scan) : Prop :=
  insideSingleBlock st = false /\ insideMultiBlock st = false
  /\ indentAmount st = None
  /\ (insideDocblock st = false -> block st = emptyBlock).

(** [raw] comes from consecutive lines: the current block from the last
    lines read, a saved block from lines read earlier. *)
Definition fromLines (ls : list str) (s : str) : Prop :=
  stripSpaceAndStars s = concat (map stripSpaceAndStars ls).

Definition segInv (read : list str) (st : Scan) : Prop :=
  (exists a cur, read = a ++ cur /\ fromLines cur (raw (block st)))
  /\ Forall (fun b => exists a cur c,
                read = a ++ cur ++ c /\ fromLines cur (raw b)) (blocks st).

(** The input ends inside a block that no line has closed. *)
Definition openAtEnd (input : str) : Prop :=
  let st := scan 0 (sourceLines input) initScan in
  insideSingleBlock st || insideMultiBlock st || insideDocblock st = true.

(** Sample inputs: a doc block without its closing line, and a block with
    indented interior lines. *)
Definition unterminatedInput : str :=
  "/**" ++ [LF] ++ " * @styleguide a.b".

Definition indentedInput : str :=
  "/**" ++ [LF] ++ "  first" ++ [LF] ++ "    second" ++ [LF] ++ "*/".

(* ===================================================================== *)
(** ** The modifier / parameter mini-grammar                              *)
(* ===================================================================== *)

Module KssModifier.
Record t := mk { name : str; description : str }.
End KssModifier.

Module KssParameter.
Record t := mk { name : str; defaultValue : str; description : str }.
End KssParameter.

(** A match of [\s+X\s+] at the start of [s], for a character [X] that is
    not white space: the number of characters matched.  Both runs of white
    space are taken as long as they are. *)
Definition match_sep (x : ascii) (s : str) : option nat :=
  match take_space s, drop_space s with
  | _ :: _, c :: rest =>
      if Ascii.eqb c x then
        match take_space rest with
        | _ :: _ => Some (length (take_space s) + 1 + length (take_space rest))
        | [] => None
        end
      else None
  | _, _ => None
  end.

(** [re.test(s)]: the expression matches somewhere in [s]. *)
Fixpoint test_re (m : str -> option nat) (s : str) : bool :=
  match m s with
  | Some _ => true
  | None => match s with
            | [] => false
            | _ :: t => test_re m t
            end
  end.

(** [s.split(re)] for an expression that matches no empty string, [m] giving
    the length of its match at the start of a string.  [skip] counts the
    characters of the current match still to pass over and [cur] is the
    piece being collected. *)
Fixpoint split_re (m : str -> option nat) (skip : nat) (cur s : str)
  : list str :=
  match s with
  | [] => [cur]
  | c :: t =>
      match skip with
      | S k => split_re m k cur t
      | O =>
          match m s with
          | Some (S len) => cur :: split_re m len [] t
          | _ => split_re m 0 (cur ++ [c]) t
          end
      end
  end.

Definition split (m : str -> option nat) (s : str) : list str :=
  split_re m 0 [] s.

(** [s.split(re, limit)] and [array[i]] on arrays of strings. *)
Definition splitLimit (m : str -> option nat) (limit : nat) (s : str)
  : list str := take limit (split m s).

Definition item (i : nat) (l : list str) : str := nth i l [].

(** [s.replace(pat, '')] for a string [pat]: its first occurrence in [s] is
    removed. *)
Fixpoint remove_first (pat s : str) {struct s} : str :=
  if starts_with pat s then drop (length pat) s
  else match s with
       | [] => []
       | c :: t => c :: remove_first pat t
       end.

(** [s.replace(/^\s+\-\s+/, '')]. *)
Definition strip_dash (s : str) : str :=
  match match_sep "-"%char s with
  | Some n => drop n s
  | None => s
  end.

(** [s.replace(/([\s|\t]{2,})/g, ' ')].  Inside the brackets the bar is a
    member of the class like any other character.  [run] is the run of
    class members read so far; a run of two or more becomes one space. *)
Definition fold_class (c : ascii) : bool :=
  is_space c || Ascii.eqb c "|"%char || Ascii.eqb c "009"%char.

Definition flush_run (run : str) : str :=
  match run with
  | _ :: _ :: _ => " "
  | _ => run
  end.

Fixpoint collapse_runs (run s : str) : str :=
  match s with
  | [] => flush_run run
  | c :: t =>
      if fold_class c then collapse_runs (run ++ [c]) t
      else flush_run run ++ c :: collapse_runs [] t
  end.

(** The folding of a description that holds a line break. *)
Definition foldDescription (description : str) : str :=
  if existsb is_lf description then
    collapse_runs [] (replace_char LF " "%char description)
  else description.

(** The parsing options, after the defaults are filled in. *)
Record Options := mkOptions {
  markdown : bool;
  header : bool;
  custom : list str
}.

(** The options as the caller gives them, each of them optional. *)
Record RawOptions := mkRawOptions {
  raw_markdown : option bool;
  raw_header : option bool;
  raw_custom : option (list str)
}.

Definition withDefaults (options : option RawOptions) : Options :=
  match options with
  | None => {| markdown := true; header := true; custom := [] |}
  | Some o =>
      {| markdown := default true (raw_markdown o);
         header := default true (raw_header o);
         custom := default [] (raw_custom o) |}
  end.

Section Grammar.

(** [marked(text, {renderer: inlineRenderer})]: the Markdown renderer in
    the mode without a wrapping paragraph, an outside library.  [None]
    stands for an exception raised by it. *)
Variable markedInline : str -> option str.

Definition renderInline (options : Options) (description : str)
  : option str :=
  if markdown options then markedInline description else Some description.

Definition createModifier (options : Options) (entry : str)
  : option KssModifier.t :=
  let modifier := item 0 (splitLimit (match_sep "-"%char) 1 entry) in
  let description := strip_dash (remove_first modifier entry) in
  let description := foldDescription description in
  description ← renderInline options description;
  Some {| KssModifier.name := modifier; KssModifier.description := description |}.

Definition createModifiers (rawModifiers : list str) (options : Options)
  : option (list KssModifier.t) :=
  mapM (createModifier options) rawModifiers.

Definition createParameter (options : Options) (entry : str)
  : option KssParameter.t :=
  let parameter := item 0 (splitLimit (match_sep "-"%char) 1 entry) in
  let description := strip_dash (remove_first parameter entry) in
  let '(parameter, defaultValue) :=
    if test_re (match_sep "="%char) parameter then
      let tokens := split (match_sep "="%char) parameter in
      (item 0 tokens, item 1 tokens)
    else (parameter, []) in
  description ← renderInline options description;
  Some {| KssParameter.name := parameter;
          KssParameter.defaultValue := defaultValue;
          KssParameter.description := description |}.

Definition createParameters (rawParameters : list str) (options : Options)
  : option (list KssParameter.t) :=
  mapM (createParameter options) rawParameters.

End Grammar.

(** The shapes of the mini-grammar: a token holds no white space, a
    separator is surrounded by one or more white-space characters, and a
    description does not start with white space. *)
Definition no_space (s : str) : bool := forallb (fun c => negb (is_space c)) s.

Definition spaces (w : str) : bool :=
  match w with
  | [] => false
  | _ :: _ => forallb is_space w
  end.

Definition leading_space (s : str) : bool :=
  match s with
  | c :: _ => is_space c
  | [] => false
  end.

(** No match of [\s+X\s+] starts inside [p] when [s] follows it. *)
Definition quiet (x : ascii) (p s : str) : Prop :=
  forall k, k < length p -> match_sep x (drop k (p ++ s)) = None.

(* ===================================================================== *)
(** ** The weight of a section                                            *)
(* ===================================================================== *)

(** A number, as far as [parseInt] returns one: not-a-number, an integer
    that a double holds exactly, the negative zero, or an infinity. *)
Inductive Number := NaN | Int (z : Z) | NegZero | Infinity (negative : bool).

Definition digit (radix : Z) (c : ascii) : option Z :=
  let v :=
    match c with
    | "0"%char => Some 0%Z | "1"%char => Some 1%Z | "2"%char => Some 2%Z
    | "3"%char => Some 3%Z | "4"%char => Some 4%Z | "5"%char => Some 5%Z
    | "6"%char => Some 6%Z | "7"%char => Some 7%Z | "8"%char => Some 8%Z
    | "9"%char => Some 9%Z
    | "a"%char | "A"%char => Some 10%Z | "b"%char | "B"%char => Some 11%Z
    | "c"%char | "C"%char => Some 12%Z | "d"%char | "D"%char => Some 13%Z
    | "e"%char | "E"%char => Some 14%Z | "f"%char | "F"%char => Some 15%Z
    | _ => None
    end in
  match v with
  | Some d => if (d <? radix)%Z then Some d else None
  | None => None
  end.

Definition is_digit (radix : Z) (c : ascii) : bool :=
  match digit radix c with Some _ => true | None => false end.

Fixpoint take_digits (radix : Z) (s : str) : str :=
  match s with
  | c :: t => if is_digit radix c then c :: take_digits radix t else []
  | [] => []
  end.

Fixpoint drop_digits (radix : Z) (s : str) : str :=
  match s with
  | c :: t => if is_digit radix c then drop_digits radix t else s
  | [] => []
  end.

Definition digits_value (radix : Z) (ds : str) : Z :=
  fold_left (fun acc c => (acc * radix + default 0 (digit radix c))%Z) ds 0%Z.

Definition nonempty (s : str) : bool :=
  match s with [] => false | _ :: _ => true end.

Definition drop_sign (s : str) : str :=
  match s with
  | "+"%char :: r | "-"%char :: r => r
  | _ => s
  end.

(** The grammar of numeric strings, [StrNumericLiteral]. *)
Definition exponentPart (s : str) : bool :=
  match s with
  | [] => true
  | "e"%char :: r | "E"%char :: r =>
      nonempty (drop_sign r) && forallb (is_digit 10) (drop_sign r)
  | _ => false
  end.

Definition strUnsignedDecimalLiteral (s : str) : bool :=
  if starts_with "Infinity" s && (length s =? 8)%nat then true
  else
    let int := take_digits 10 s in
    match drop_digits 10 s with
    | "."%char :: r =>
        (nonempty int || nonempty (take_digits 10 r))
        && exponentPart (drop_digits 10 r)
    | r => nonempty int && exponentPart r
    end.

Definition strNumericLiteral (s : str) : bool :=
  match s with
  | "0"%char :: "x"%char :: ds | "0"%char :: "X"%char :: ds =>
      nonempty ds && forallb (is_digit 16) ds
  | "0"%char :: "o"%char :: ds | "0"%char :: "O"%char :: ds =>
      nonempty ds && forallb (is_digit 8) ds
  | "0"%char :: "b"%char :: ds | "0"%char :: "B"%char :: ds =>
      nonempty ds && forallb (is_digit 2) ds
  | _ => strUnsignedDecimalLiteral (drop_sign s)
  end.

(** [isNaN(s)] for a string: the string, white space trimmed at both ends,
    is neither empty nor a numeric literal. *)
Definition isNaN (s : str) : bool :=
  match strip_trailing_space (drop_space s) with
  | [] => false
  | t => negb (strNumericLiteral t)
  end.

(** The double nearest to the natural number [m], ties going to the even
    significand: [m] itself below 2^53; beyond, its 53 leading bits, rounded;
    [None], for infinity, when that reaches 2^1024. *)
Definition roundToDouble (m : Z) : option Z :=
  if (m <? 2 ^ 53)%Z then Some m
  else
    let e := (Z.log2 m - 52)%Z in
    let q := Z.shiftr m e in
    let r := Z.land m (Z.ones e) in
    let half := Z.shiftl 1 (e - 1) in
    let q :=
      if (r <? half)%Z then q
      else if (half <? r)%Z then (q + 1)%Z
      else if Z.even q then q else (q + 1)%Z in
    let v := Z.shiftl q e in
    if (v <? 2 ^ 1024)%Z then Some v else None.

(** The number with that sign and that magnitude, [sign * mathInt] as a
    double; a negative nothing is the negative zero. *)
Definition numberOf (negative : bool) (mathInt : Z) : Number :=
  match roundToDouble mathInt with
  | None => Infinity negative
  | Some 0%Z => if negative then NegZero else Int 0
  | Some v => Int (if negative then - v else v)
  end.

(** [parseInt(s)] for a string: leading white space, a sign, [0x] or [0X]
    for radix 16, then the longest run of digits, whose value is rounded to
    a double (exactly, as the engine of Node does, also beyond twenty
    digits). *)
Definition parseInt (s : str) : Number :=
  let s := drop_space s in
  let negative := match s with "-"%char :: _ => true | _ => false end in
  let s := drop_sign s in
  let '(radix, s) :=
    match s with
    | "0"%char :: "x"%char :: r | "0"%char :: "X"%char :: r => (16%Z, r)
    | _ => (10%Z, s)
    end in
  match take_digits radix s with
  | [] => NaN
  | ds => numberOf negative (digits_value radix ds)
  end.

(** [a.join(',')], the string an array of strings converts to. *)
Fixpoint join (l : list str) : str :=
  match l with
  | [] => []
  | [s] => s
  | s :: rest => s ++ "," ++ join rest
  end.

(** The value of a tag: one string, or the strings of a tag given several
    times. *)
Inductive TagValue := TString (s : str) | TStrings (l : list str).

Definition toString (v : TagValue) : str :=
  match v with
  | TString s => s
  | TStrings l => join l
  end.

(** [isNaN(weight) ? 0 : parseInt(weight)], [None] being [undefined]. *)
Definition weightOf (weight : option TagValue) : Number :=
  match weight with
  | None => Int 0
  | Some v => if isNaN (toString v) then Int 0 else parseInt (toString v)
  end.

(* ===================================================================== *)
(** ** [parse]                                                            *)
(* ===================================================================== *)

(** What [docblockParser.parse] returns: the lead text and the tags.  The
    tags are an ordinary object: [co_tags] holds its own properties, and a
    name that is none of them reads through to [Object.prototype].  None of
    the names that [parse] reads by itself ([styleguide], [description],
    [modifier], [param], [markup], [weight], [deprecated], [experimental])
    is a member of it, so that those reads are lookups in [co_tags]. *)
Record CommentObject := mkCommentObject {
  co_text : str;
  co_tags : gmap str TagValue
}.

Module SourceFile.
Record t := mk { name : str; base : str; path : str; line : nat }.
End SourceFile.

(** The values held by the properties of a section object;
    [VInherited member] is the member of [Object.prototype] of that name. *)
Inductive Value :=
| VBoolean (b : bool)
| VNumber (n : Number)
| VString (s : str)
| VArray (l : list str)
| VModifiers (l : list KssModifier.t)
| VParameters (l : list KssParameter.t)
| VSourceFile (f : SourceFile.t)
| VInherited (member : str).

(** A section is an object: a finite map from property names to values. *)
Abbreviation SectionObject := (gmap str Value).

Definition get (k : str) (o : SectionObject) : option Value := o !! k.

Definition set (k : str) (v : Value) (o : SectionObject) : SectionObject :=
  <[k := v]> o.

(** [Object.assign(target, source)]: the properties of [source] are written
    over those of [target]. *)
Definition objectAssign (target source : SectionObject) : SectionObject :=
  source ∪ target.

Definition ofTag (v : TagValue) : Value :=
  match v with
  | TString s => VString s
  | TStrings l => VArray l
  end.

(** [v || '']: an absent tag and the empty string give the empty string. *)
Definition orEmpty (v : option TagValue) : TagValue :=
  match v with
  | None | Some (TString []) => TString []
  | Some v => v
  end.

(** [[].concat(v)]. *)
Definition concatTag (v : TagValue) : list str :=
  match v with
  | TString s => [s]
  | TStrings l => l
  end.

(** An element of the input array: a string, read as [{contents: file}], or
    a file object [{base, path, contents}] whose [base] may be missing. *)
Inductive File :=
| Contents (contents : str)
| Vinyl (base : option str) (path : str) (contents : str).

Definition file_contents (file : File) : str :=
  match file with
  | Contents c | Vinyl _ _ c => c
  end.

Definition file_path (file : File) : option str :=
  match file with
  | Contents _ => None
  | Vinyl _ p _ => Some p
  end.

Definition file_base (file : File) : option str :=
  match file with
  | Contents _ => None
  | Vinyl b _ _ => b
  end.

(** [s ? s : '']. *)
Definition orEmptyString (s : option str) : str := default [] s.

Inductive Input :=
| OneString (input : str)
| Many (input : list File).

(** The object handed to the [KssStyleGuide] constructor. *)
Record StyleGuide := mkStyleGuide {
  files : list str;
  sections : list SectionObject
}.

(** Modelled from the spec: the class [KssStyleGuide], whose file
    [lib/kss_style_guide.js] is not among the sources.  It is constructed
    from [{files, sections}], exposes the file list, and its sections keep
    their original parse order. *)
Record KssStyleGuide := mkKssStyleGuide {
  meta_files : list str;
  data_sections : list SectionObject
}.

Definition newKssStyleGuide (data : StyleGuide) : KssStyleGuide :=
  {| meta_files := files data; data_sections := sections data |}.

(** The members of [Object.prototype] that hold a value, which every
    ordinary object inherits; its accessor [__proto__] is apart. *)
Definition objectPrototype : list str :=
  [ "constructor" : str; "hasOwnProperty" : str; "isPrototypeOf" : str;
    "propertyIsEnumerable" : str; "toLocaleString" : str; "toString" : str;
    "valueOf" : str; "__defineGetter__" : str; "__defineSetter__" : str;
    "__lookupGetter__" : str; "__lookupSetter__" : str ].

(** The properties that [parse] itself sets on a section. *)
Definition builtinProperties : list str :=
  [ "raw" : str; "header" : str; "description" : str; "modifiers" : str;
    "parameters" : str; "markup" : str; "sourceFile" : str;
    "reference" : str; "weight" : str; "deprecated" : str;
    "experimental" : str ].

Section Parse.

(** The outside libraries: the doc-block parser, the Markdown renderer in
    its two modes, and [path.relative].  [None] stands for an exception
    raised by the renderer. *)
Variable docblockParser_parse : str -> CommentObject.
Variable marked : TagValue -> option str.
Variable markedInline : str -> option str.
Variable path_relative : str -> str -> str.

Definition sourceFileOf (file : File) (comment : Block) : SourceFile.t :=
  {| SourceFile.name :=
       match file_base file, file_path file with
       | Some (_ :: _ as base), Some path =>
           replace_char "\"%char "/"%char (path_relative base path)
       | _, path => orEmptyString path
       end;
     SourceFile.base := orEmptyString (file_base file);
     SourceFile.path := orEmptyString (file_path file);
     SourceFile.line := line comment |}.

(** [commentObject.tags[customProperty] || '']: the tags are an ordinary
    object, so that a name that is no tag reads the member of
    [Object.prototype] of that name, when there is one. *)
Definition customValue (commentObject : CommentObject)
    (customProperty : str) : Value :=
  match co_tags commentObject !! customProperty with
  | Some v => ofTag (orEmpty (Some v))
  | None =>
      if bool_decide (customProperty ∈ objectPrototype)
      then VInherited customProperty
      else VString []
  end.

(** [custom[customProperty] = commentObject.tags[customProperty] || '']:
    the assignment adds or replaces a property of [custom], but under the
    name [__proto__] it calls the setter of [Object.prototype], which adds
    no property. *)
Definition customStep (commentObject : CommentObject)
    (custom : SectionObject) (customProperty : str) : SectionObject :=
  if bool_decide (customProperty = ("__proto__" : str)) then custom
  else set customProperty (customValue commentObject customProperty) custom.

(** The object [custom] after the loop over the names in
    [options.custom]. *)
Definition customOf (commentObject : CommentObject) (names : list str)
  : SectionObject :=
  fold_left (customStep commentObject) names ∅.

(** The body of the inner loop, up to the [push]: [Some None] when the
    block is ignored, [Some (Some newSection)] when a section is made,
    [None] when the renderer raises. *)
Definition sectionOf (options : Options) (file : File) (comment : Block)
  : option (option SectionObject) :=
  let commentObject := docblockParser_parse (raw comment) in
  let tag (k : str) := co_tags commentObject !! k in
  let newSection :=
    set "sourceFile" (VSourceFile (sourceFileOf file comment))
      (set "markup" (VString [])
        (set "parameters" (VParameters [])
          (set "modifiers" (VModifiers [])
            (set "description" (VString [])
              (set "header" (VString [])
                (set "raw" (VString (raw comment)) ∅)))))) in
  match tag "styleguide" with
  | None | Some (TString []) => Some None
  | Some reference =>
      let newSection := set "reference" (ofTag reference) newSection in
      let newSection :=
        if header options then
          set "header"
              (VString (replace_char LF " "%char (co_text commentObject)))
              newSection
        else newSection in
      let description := orEmpty (tag "description") in
      description ←
        (if markdown options then VString <$> marked description
         else Some (ofTag description));
      let newSection := set "description" description newSection in
      let modifiers := orEmpty (tag "modifier") in
      modifiers ←
        (match modifiers with
         | TString [] => Some []
         | _ => createModifiers markedInline (concatTag modifiers) options
         end);
      let newSection := set "modifiers" (VModifiers modifiers) newSection in
      let parameters := orEmpty (tag "param") in
      parameters ←
        (match parameters with
         | TString [] => Some []
         | _ => createParameters markedInline (concatTag parameters) options
         end);
      let newSection :=
        set "parameters" (VParameters parameters) newSection in
      let newSection :=
        set "markup" (ofTag (orEmpty (tag "markup"))) newSection in
      let newSection :=
        set "weight" (VNumber (weightOf (tag "weight"))) newSection in
      let newSection :=
        set "deprecated" (VBoolean (bool_decide (is_Some (tag "deprecated"))))
            newSection in
      let newSection :=
        set "experimental"
            (VBoolean (bool_decide (is_Some (tag "experimental"))))
            newSection in
      let custom := customOf commentObject (custom options) in
      Some (Some (objectAssign newSection custom))
  end.

(** The body of the inner loop: the section, if any, is pushed. *)
Definition parseComment (options : Options) (file : File) (comment : Block)
    (sections : list SectionObject) : option (list SectionObject) :=
  newSection ← sectionOf options file comment;
  Some (match newSection with
        | Some newSection => sections ++ [newSection]
        | None => sections
        end).

Fixpoint parseComments (options : Options) (file : File)
    (comments : list Block) (sections : list SectionObject)
  : option (list SectionObject) :=
  match comments with
  | [] => Some sections
  | comment :: rest =>
      sections ← parseComment options file comment sections;
      parseComments options file rest sections
  end.

Fixpoint parseFiles (options : Options) (files : list File)
    (sections : list SectionObject) : option (list SectionObject) :=
  match files with
  | [] => Some sections
  | file :: rest =>
      let comments := findCommentBlocks (file_contents file) in
      sections ← parseComments options file comments sections;
      parseFiles options rest sections
  end.

Definition parse (input : Input) (options : option RawOptions)
  : option KssStyleGuide :=
  let options := withDefaults options in
  let files :=
    match input with
    | OneString s => [Contents s]
    | Many l => l
    end in
  let styleGuide_files :=
    match input with
    | OneString _ => []
    | Many l => omap file_path l
    end in
  sections ← parseFiles options files [];
  Some (newKssStyleGuide
          {| files := styleGuide_files; sections := sections |}).

End Parse.

(** The options with another list of custom properties. *)
Definition withCustom (options : Options) (names : list str) : Options :=
  {| markdown := markdown options; header := header options;
     custom := names |}.

(** The sections an outcome of [sectionOf] adds to the list. *)
Definition pushed (newSection : option SectionObject) : list SectionObject :=
  match newSection with
  | Some newSection => [newSection]
  | None => []
  end.

(** The order of the saved blocks after [i] lines: their line numbers
    increase, none is beyond [i], and the block being read starts after
    all of them. *)
Definition orderInv (i : nat) (st : Scan) : Prop :=
  StronglySorted lt (map line (blocks st))
  /\ Forall (fun b => line b <= i) (blocks st)
  /\ (insideDocblock st = true ->
      line (block st) <= i
      /\ Forall (fun b => line b < line (block st)) (blocks st)).

(* ===================================================================== *)
(** ** Notions used to describe the blocks                                *)
(* ===================================================================== *)

(** A line of the input opens, or closes, a block: the tests of the loop on
    the line without its trailing white space. *)
Definition isStart (l : str) : bool := docblockStart (strip_trailing_space l).

Definition isFinish (l : str) : bool := multiFinish (strip_trailing_space l).

(** What a run of lines read inside a block adds to [raw] and to [text]. *)
Definition rawOf (seg : list str) : str :=
  concat (map (fun l => strip_trailing_space l ++ [LF]) seg).

Definition textOf (seg : list str) : str :=
  concat (map (fun l => strip_marker (strip_trailing_space l) ++ [LF])
              (List.filter (fun l => negb (isStart l)) seg)).

(** A block made of the lines [seg], which follow the lines [before]: the
    first line opens it, none closes it, and its line number is that of one
    of its opening lines. *)
Definition madeOf (before seg : list str) (b : Block) : Prop :=
  (exists l seg', seg = l :: seg' /\ isStart l = true)
  /\ Forall (fun l => isFinish l = false) seg
  /\ raw b = rawOf seg
  /\ length before < line b <= length before + length seg
  /\ (exists l, (before ++ seg) !! (line b - 1) = Some l /\ isStart l = true).

(** The loop after the lines [read]: the block being read is made of the
    last lines, with the text they give; a saved block is made of earlier
    lines followed by a closing line, with their text trimmed. *)
Definition contentInv (read : list str) (st : Scan) : Prop :=
  (insideDocblock st = true ->
   exists before seg,
     read = before ++ seg /\ madeOf before seg (block st)
     /\ text (block st) = textOf seg)
  /\ Forall (fun b => exists before seg closing after,
                read = before ++ seg ++ closing :: after
                /\ madeOf before seg b /\ isFinish closing = true
                /\ text b = strip_trailing_lf (strip_leading_lf (textOf seg)))
            (blocks st).

(** A text written with one line ending: every line is followed by [eol]. *)
Definition joinLines (eol : str) (ls : list str) : str :=
  concat (map (fun l => l ++ eol) ls).

Definition no_eol (l : str) : bool :=
  forallb (fun c => negb (Ascii.eqb c CR || Ascii.eqb c LF)) l.

(** No two neighbours of a string are both in the class of the folding. *)
Fixpoint sparse (s : str) : bool :=
  match s with
  | a :: (b :: _) as t => negb (fold_class a && fold_class b) && sparse t
  | _ => true
  end.

(** The characters a numeric string can hold: digits of radix 16, the
    letters of the radix prefixes and of the exponent, signs, the point and
    the letters of [Infinity]. *)
Definition numeric_char (c : ascii) : bool :=
  is_digit 16 c
  || existsb (Ascii.eqb c) ("xXoO+-.Infity" : str).

(** The section object as the loop body leaves it before the custom
    properties are written, given what the renderer returned. *)
Definition assembled (options : Options) (comment : Block)
    (commentObject : CommentObject) (sourceFile : SourceFile.t)
    (reference : TagValue) (description : Value)
    (modifiers : list KssModifier.t) (parameters : list KssParameter.t)
  : SectionObject :=
  let tag (k : str) := co_tags commentObject !! k in
  let newSection :=
    set "reference" (ofTag reference)
      (set "sourceFile" (VSourceFile sourceFile)
        (set "markup" (VString [])
          (set "parameters" (VParameters [])
            (set "modifiers" (VModifiers [])
              (set "description" (VString [])
                (set "header" (VString [])
                  (set "raw" (VString (raw comment)) ∅))))))) in
  let newSection :=
    if header options then
      set "header"
          (VString (replace_char LF " "%char (co_text commentObject)))
          newSection
    else newSection in
  set "experimental" (VBoolean (bool_decide (is_Some (tag "experimental"))))
    (set "deprecated" (VBoolean (bool_decide (is_Some (tag "deprecated"))))
      (set "weight" (VNumber (weightOf (tag "weight")))
        (set "markup" (ofTag (orEmpty (tag "markup")))
          (set "parameters" (VParameters parameters)
            (set "modifiers" (VModifiers modifiers)
              (set "description" description newSection)))))).

(** The value of a property that is a string, if it is one. *)
Definition stringOf (v : option Value) : option str :=
  match v with
  | Some (VString s) => Some s
  | _ => None
  end.

(** A block, and the loop, [k] lines further down, after the blocks [bs]. *)
Definition shiftBlock (k : nat) (b : Block) : Block :=
  {| line := k + line b; text := text b; raw := raw b |}.

Definition shiftScan (k : nat) (bs : list Block) (st : Scan) : Scan :=
  {| blocks := bs ++ map (shiftBlock k) (blocks st);
     block := if insideDocblock st then shiftBlock k (block st) else block st;
     indentAmount := indentAmount st;
     insideSingleBlock := insideSingleBlock st;
     insideMultiBlock := insideMultiBlock st;
     insideDocblock := insideDocblock st |}.

(* ===================================================================== *)
(** ** Strings: basic facts                                               *)
(* ===================================================================== *)

Lemma starts_with_app (p s : str) : starts_with p (p ++ s) = true.
Proof.
  induction p as [|a p IH]; simpl; [reflexivity|].
  rewrite Ascii.eqb_refl. exact IH.
Qed.

Lemma includes_here (t s : str) : starts_with s t = true -> includes t s = true.
Proof. intros H. destruct t; simpl; rewrite H; reflexivity. Qed.

Lemma includes_app (a s b : str) : includes (a ++ s ++ b) s = true.
Proof.
  induction a as [|c a IH].
  - apply includes_here. exact (starts_with_app s b).
  - simpl. rewrite IH. apply orb_true_r.
Qed.

Lemma strip_app (a b : str) :
  stripSpaceAndStars (a ++ b) = stripSpaceAndStars a ++ stripSpaceAndStars b.
Proof. apply List.filter_app. Qed.

Lemma strip_all_space (s : str) :
  forallb is_space s = true -> stripSpaceAndStars s = [].
Proof.
  induction s as [|c s IH]; simpl; [reflexivity|].
  intros H. apply andb_prop in H as [Hc Hs].
  unfold significant. rewrite Hc. simpl. auto.
Qed.

Lemma strip_trailing_space_strip (s : str) :
  stripSpaceAndStars (strip_trailing_space s) = stripSpaceAndStars s.
Proof.
  induction s as [|c s IH]; [reflexivity|].
  cbn [strip_trailing_space].
  destruct (forallb is_space (c :: s)) eqn:E.
  - symmetry. apply strip_all_space. exact E.
  - simpl. rewrite IH. reflexivity.
Qed.

Lemma strip_replace_crlf_le (n : nat) : forall s : str,
  length s <= n ->
  stripSpaceAndStars (replace_crlf s) = stripSpaceAndStars s.
Proof.
  induction n as [|n IH]; intros [|c s] Hlen; try reflexivity.
  - simpl in Hlen. lia.
  - cbn [replace_crlf]. simpl in Hlen.
    destruct (Ascii.eqb c CR) eqn:Ec.
    + apply Ascii.eqb_eq in Ec. subst c.
      destruct s as [|d s]; [reflexivity|].
      destruct (Ascii.eqb d LF) eqn:Ed.
      * apply Ascii.eqb_eq in Ed. subst d. simpl.
        apply IH. simpl in Hlen. lia.
      * change (stripSpaceAndStars ([CR] ++ replace_crlf (d :: s))
                = stripSpaceAndStars ([CR] ++ d :: s)).
        rewrite !strip_app. f_equal. apply IH. lia.
    + change (stripSpaceAndStars ([c] ++ replace_crlf s)
              = stripSpaceAndStars ([c] ++ s)).
      rewrite !strip_app, IH by lia. reflexivity.
Qed.

Lemma strip_replace_crlf (s : str) :
  stripSpaceAndStars (replace_crlf s) = stripSpaceAndStars s.
Proof. apply (strip_replace_crlf_le (length s)). lia. Qed.

Lemma strip_replace_cr (s : str) :
  stripSpaceAndStars (replace_char CR LF s) = stripSpaceAndStars s.
Proof.
  induction s as [|c s IH]; [reflexivity|].
  simpl. destruct (Ascii.eqb c CR) eqn:Ec.
  - apply Ascii.eqb_eq in Ec. subst c. simpl. exact IH.
  - rewrite IH. reflexivity.
Qed.

Lemma split_lf_nonempty (s : str) : split_lf s <> [].
Proof.
  destruct s as [|c s]; simpl; [discriminate|].
  destruct (is_lf c); [discriminate|].
  destruct (split_lf s); discriminate.
Qed.

Lemma strip_split_lf (s : str) :
  concat (map stripSpaceAndStars (split_lf s)) = stripSpaceAndStars s.
Proof.
  induction s as [|c s IH]; [reflexivity|].
  simpl. destruct (is_lf c) eqn:Ec.
  - simpl. rewrite IH. unfold is_lf in Ec. apply Ascii.eqb_eq in Ec.
    subst c. reflexivity.
  - destruct (split_lf s) as [|l ls] eqn:E.
    + exfalso. exact (split_lf_nonempty s E).
    + simpl in *. rewrite <- IH.
      destruct (significant c); reflexivity.
Qed.

Lemma split_lf_snoc (s : str) : split_lf (s ++ [LF]) = split_lf s ++ [[]].
Proof.
  induction s as [|c s IH]; [reflexivity|].
  simpl. destruct (is_lf c).
  - rewrite IH. reflexivity.
  - rewrite IH. destruct (split_lf s) as [|l ls] eqn:E.
    + exfalso. exact (split_lf_nonempty s E).
    + reflexivity.
Qed.

Lemma inputLines_sourceLines (input : str) :
  inputLines input = sourceLines input ++ [[]].
Proof. apply split_lf_snoc. Qed.

Lemma strip_inputLines (input : str) :
  concat (map stripSpaceAndStars (inputLines input)) = stripSpaceAndStars input.
Proof.
  unfold inputLines. rewrite strip_split_lf, strip_app.
  rewrite strip_replace_cr, strip_replace_crlf.
  simpl. apply app_nil_r.
Qed.

(* ===================================================================== *)
(** ** The loop of [findCommentBlocks]                                    *)
(* ===================================================================== *)

Lemma multiStart_docblockStart (l : str) : multiStart l = docblockStart l.
Proof. reflexivity. Qed.

Lemma scan_app (a b : list str) : forall i st,
  scan i (a ++ b) st = scan (i + length a) b (scan i a st).
Proof.
  induction a as [|l a IH]; intros i st; simpl.
  - rewrite Nat.add_0_r. reflexivity.
  - rewrite IH. f_equal. lia.
Qed.

Lemma initScan_inv : scanInv initScan.
Proof. repeat split. Qed.

Lemma step_inv (i : nat) (l : str) (st : Scan) :
  scanInv st -> scanInv (step i l st).
Proof.
  intros (Hs & Hm & Hi & Hb).
  unfold step, closes. rewrite Hs, Hm. cbn [orb negb].
  destruct (insideDocblock st) eqn:Hd; cbn [andb].
  - destruct (multiFinish (strip_trailing_space l)).
    + repeat split.
    + unfold scanLine. rewrite Hd.
      destruct (docblockStart (strip_trailing_space l));
        repeat split; cbn; auto; intros; congruence.
  - unfold scanLine.
    change (multiStart (strip_trailing_space l))
      with (docblockStart (strip_trailing_space l)).
    rewrite Hd, Hm.
    destruct (docblockStart (strip_trailing_space l)).
    + repeat split; cbn; auto; intros; congruence.
    + repeat split; auto.
Qed.

Lemma scan_inv (ls : list str) : forall i st,
  scanInv st -> scanInv (scan i ls st).
Proof.
  induction ls as [|l ls IH]; intros i st H; simpl; [exact H|].
  apply IH, step_inv, H.
Qed.

(** Only a line that is a close delimiter saves a block. *)
Lemma step_blocks_open (i : nat) (l : str) (st : Scan) :
  scanInv st -> multiFinish (strip_trailing_space l) = false ->
  blocks (step i l st) = blocks st.
Proof.
  intros (Hs & Hm & Hi & Hb) Hf.
  unfold step, closes. rewrite Hs, Hm, Hf, andb_false_r. cbn [orb].
  unfold scanLine.
  change (multiStart (strip_trailing_space l))
    with (docblockStart (strip_trailing_space l)).
  rewrite Hm.
  destruct (docblockStart _), (insideDocblock st); reflexivity.
Qed.

Lemma scan_blocks_open (ls : list str) : forall i st,
  scanInv st ->
  Forall (fun l => multiFinish (strip_trailing_space l) = false) ls ->
  blocks (scan i ls st) = blocks st.
Proof.
  induction ls as [|l ls IH]; intros i st Hinv Hall; simpl; [reflexivity|].
  inversion Hall as [|? ? Hl Hls]; subst.
  rewrite IH by (auto using step_inv).
  apply step_blocks_open; assumption.
Qed.

Lemma fromLines_snoc (cur : list str) (s l : str) :
  fromLines cur s ->
  fromLines (cur ++ [l]) (s ++ strip_trailing_space l ++ [LF]).
Proof.
  unfold fromLines. intros H.
  rewrite !strip_app, H, strip_trailing_space_strip, map_app, concat_app.
  simpl. rewrite !app_nil_r. reflexivity.
Qed.

Lemma saved_later (read : list str) (l : str) (bs : list Block) :
  Forall (fun b => exists a cur c,
            read = a ++ cur ++ c /\ fromLines cur (raw b)) bs ->
  Forall (fun b => exists a cur c,
            read ++ [l] = a ++ cur ++ c /\ fromLines cur (raw b)) bs.
Proof.
  apply Forall_impl. intros b (a & cur & c & -> & H).
  exists a, cur, (c ++ [l]). split; [|exact H].
  rewrite <- !app_assoc. reflexivity.
Qed.

Lemma step_seg (i : nat) (l : str) (read : list str) (st : Scan) :
  scanInv st -> segInv read st -> segInv (read ++ [l]) (step i l st).
Proof.
  intros (Hs & Hm & Hi & Hb) ((a & cur & -> & Hcur) & Hsaved).
  assert (Hgrow : exists a' cur', (a ++ cur) ++ [l] = a' ++ cur'
            /\ fromLines cur'
                 (raw (block st) ++ strip_trailing_space l ++ [LF])).
  { exists a, (cur ++ [l]). split; [symmetry; apply app_assoc|].
    apply fromLines_snoc, Hcur. }
  assert (Hnone : exists a' cur', (a ++ cur) ++ [l] = a' ++ cur'
            /\ fromLines cur' []).
  { exists ((a ++ cur) ++ [l]), []. split; [symmetry; apply app_nil_r|].
    reflexivity. }
  apply saved_later with (l := l) in Hsaved as Hsaved'.
  unfold step, closes. rewrite Hs, Hm. cbn [orb negb].
  destruct (insideDocblock st) eqn:Hd; cbn [andb].
  - destruct (multiFinish (strip_trailing_space l)).
    + split; [exact Hnone|]. cbn.
      apply Forall_app. split; [exact Hsaved'|].
      constructor; [|constructor].
      exists a, cur, [l]. split; [symmetry; apply app_assoc|exact Hcur].
    + unfold scanLine. rewrite Hd.
      destruct (docblockStart (strip_trailing_space l));
        (split; [exact Hgrow|exact Hsaved']).
  - unfold scanLine.
    change (multiStart (strip_trailing_space l))
      with (docblockStart (strip_trailing_space l)).
    rewrite Hd, Hm.
    destruct (docblockStart (strip_trailing_space l)).
    + split; [exact Hgrow|exact Hsaved'].
    + split; [|exact Hsaved']. rewrite (Hb eq_refl). exact Hnone.
Qed.

Lemma scan_seg (ls : list str) : forall i read st,
  scanInv st -> segInv read st ->
  segInv (read ++ ls) (scan i ls st).
Proof.
  induction ls as [|l ls IH]; intros i read st Hinv Hseg; simpl.
  - rewrite app_nil_r. exact Hseg.
  - replace (read ++ l :: ls) with ((read ++ [l]) ++ ls)
      by (rewrite <- app_assoc; reflexivity).
    apply IH; [apply step_inv, Hinv|apply step_seg; assumption].
Qed.

Lemma initScan_seg : segInv [] initScan.
Proof.
  split; [|constructor]. exists [], []. split; reflexivity.
Qed.

Lemma reachable_inv (st : Scan) : reachable st -> scanInv st.
Proof.
  intros (input & pre & post & _ & ->). apply scan_inv, initScan_inv.
Qed.

Lemma strip_indent_app (ind rest : str) :
  strip_indent ind (ind ++ rest) = Some rest.
Proof.
  induction ind as [|a ind IH]; simpl; [reflexivity|].
  rewrite Ascii.eqb_refl. exact IH.
Qed.

Lemma strip_indent_Some (ind : str) : forall l rest,
  strip_indent ind l = Some rest -> l = ind ++ rest.
Proof.
  induction ind as [|a ind IH]; intros l rest; simpl.
  - intros [= ->]. reflexivity.
  - destruct l as [|c l]; [discriminate|].
    destruct (Ascii.eqb a c) eqn:E; [|discriminate].
    apply Ascii.eqb_eq in E. subst c.
    intros H. rewrite (IH _ _ H). reflexivity.
Qed.

Lemma take_drop_space (l : str) : l = take_space l ++ drop_space l.
Proof.
  induction l as [|c l IH]; simpl; [reflexivity|].
  destruct (is_space c); simpl; [f_equal; exact IH|reflexivity].
Qed.

Lemma replace_indent_take_space (l : str) :
  replace_indent (take_space l) l = drop_space l.
Proof.
  unfold replace_indent.
  rewrite (take_drop_space l) at 2. rewrite strip_indent_app. reflexivity.
Qed.

(* ===================================================================== *)
(** ** Properties of the comment-block extractor                          *)
(* ===================================================================== *)

(** C9.  [findCommentBlocks] is a total function of the input text (a
    recursion over its lines, in which no operation can fail), and for every
    input text [T] the raw content of each block it returns is contained in
    [T] once white space and asterisks are removed from both, which is how
    the test suite compares them; it stays contained when further
    characters, such as the slash of the delimiters, are left out of both. *)
Theorem findCommentBlocks_raw_in_input (T : str) (b : Block) :
  In b (findCommentBlocks T) ->
  includes (stripSpaceAndStars T) (stripSpaceAndStars (raw b)) = true
  /\ forall keep : ascii -> bool,
       includes (List.filter keep (stripSpaceAndStars T))
                (List.filter keep (stripSpaceAndStars (raw b))) = true.
Proof.
  intros Hb. unfold findCommentBlocks in Hb.
  destruct (scan_seg (inputLines T) 0 [] initScan initScan_inv initScan_seg)
    as [_ Hsaved].
  rewrite Forall_forall in Hsaved.
  destruct (Hsaved b Hb) as (a & cur & c & Hlines & Hraw).
  rewrite <- strip_inputLines.
  change ([] ++ inputLines T) with (inputLines T) in Hlines.
  rewrite Hlines, !map_app, !concat_app. unfold fromLines in Hraw.
  rewrite <- Hraw. split; [apply includes_app|].
  intros keep. rewrite !List.filter_app. apply includes_app.
Qed.

Lemma findCommentBlocks_raw_in_input_witness :
  let T : str := "a {}" ++ [LF] ++ "/**" ++ [CR; LF] ++ " * Title  "
                 ++ [LF] ++ " */" ++ [LF] ++ "b {}" in
  let b := {| line := 2; text := "Title";
              raw := "/**" ++ [LF] ++ " * Title" ++ [LF] |} in
  In b (findCommentBlocks T)
  /\ includes (stripSpaceAndStars T) (stripSpaceAndStars (raw b)) = true.
Proof.
  intros T b.
  assert (H : In b (findCommentBlocks T)) by (left; reflexivity).
  split; [exact H|].
  exact (proj1 (findCommentBlocks_raw_in_input T b H)).
Defined.

(** C1.  The failing input: the text ends inside a doc block that is still
    open, and no block is returned.  The empty line that the appended line
    feed gives closes nothing: it is no close delimiter, and the
    single-line state, which any line would end, is never entered. *)
Lemma unterminated_block_not_emitted :
  openAtEnd unterminatedInput /\ findCommentBlocks unterminatedInput = [].
Proof. split; reflexivity. Qed.

(** A block is saved only by a line that is a close delimiter: whatever
    follows the last such line of the input adds no block.  The line feed
    appended to the input gives one more, empty, line, without which the
    blocks are the same. *)
Theorem open_block_at_end_dropped (input : str) (pre post : list str) :
  inputLines input = pre ++ post ->
  Forall (fun l => multiFinish (strip_trailing_space l) = false) post ->
  findCommentBlocks input = blocks (scan 0 pre initScan)
  /\ inputLines input = sourceLines input ++ [[]]
  /\ findCommentBlocks input = blocks (scan 0 (sourceLines input) initScan).
Proof.
  intros Hlines Hopen. unfold findCommentBlocks.
  split; [|split].
  - rewrite Hlines, scan_app.
    apply scan_blocks_open; [apply scan_inv, initScan_inv|exact Hopen].
  - apply inputLines_sourceLines.
  - rewrite inputLines_sourceLines, scan_app.
    apply scan_blocks_open; [apply scan_inv, initScan_inv|].
    repeat constructor.
Qed.

Lemma open_block_at_end_dropped_witness :
  let input : str := "/**" ++ [LF] ++ " * one" ++ [LF] ++ " */" ++ [LF]
                     ++ "/**" ++ [LF] ++ " * two" in
  let pre : list str := ["/**" : str; " * one" : str; " */" : str] in
  let post : list str := ["/**" : str; " * two" : str; [] ] in
  findCommentBlocks input = blocks (scan 0 pre initScan)
  /\ inputLines input = sourceLines input ++ [[]]
  /\ findCommentBlocks input = blocks (scan 0 (sourceLines input) initScan).
Proof.
  intros input pre post.
  apply (open_block_at_end_dropped input pre post).
  - reflexivity.
  - repeat constructor.
Defined.

(** C2, counterexample.  No input brings the loop into the multi-line
    state, so no block's text is built by stripping [indentAmount]: the
    pattern [multiStart] is the pattern [docblockStart], which is tested
    first.  The interior lines of [indentedInput] keep their indentation. *)
Lemma multi_line_state_unreachable :
  ~ (exists st, reachable st /\ insideMultiBlock st = true)
  /\ map text (findCommentBlocks indentedInput)
     = [ "  first" ++ [LF] ++ "    second" ].
Proof.
  split; [|reflexivity].
  intros (st & Hreach & Hmulti).
  apply reachable_inv in Hreach. destruct Hreach as (_ & Hm & _).
  congruence.
Qed.

(** C2, as amended.  In the multi-line state an interior line is added to
    [raw]; the first non-blank one fixes [indentAmount] as its leading white
    space; that prefix is removed once from it and from every later interior
    line, a line that does not start with it being kept whole; blank lines
    before the capture add nothing to [text] and leave the capture pending.
    No input reaches that state: every block is a doc block. *)
Theorem multi_line_indentation (i : nat) (l0 : str) (st : Scan) :
  insideMultiBlock st = true ->
  insideDocblock st = false ->
  insideSingleBlock st = false ->
  multiFinish (strip_trailing_space l0) = false ->
  docblockStart (strip_trailing_space l0) = false ->
  let l := strip_trailing_space l0 in
  let st' := step i l0 st in
  raw (block st') = raw (block st) ++ l ++ [LF]
  /\ match indentAmount st, l with
     | None, [] =>
         indentAmount st' = None /\ text (block st') = text (block st)
     | None, _ :: _ =>
         indentAmount st' = Some (take_space l)
         /\ text (block st') = text (block st) ++ drop_space l ++ [LF]
     | Some indent, _ =>
         indentAmount st' = Some indent
         /\ text (block st')
            = text (block st) ++ replace_indent indent l ++ [LF]
     end
  /\ (forall indent rest, replace_indent indent (indent ++ rest) = rest)
  /\ (forall indent, (forall rest, l <> indent ++ rest) ->
        replace_indent indent l = l)
  /\ (forall st0, reachable st0 -> insideMultiBlock st0 = false).
Proof.
  intros Hm Hd Hs Hf Hstart l st'. subst st'. fold l in Hf, Hstart.
  assert (Hstep : step i l0 st = scanLine i l st).
  { unfold step, closes. fold l. rewrite Hs, Hf, andb_false_r. reflexivity. }
  rewrite Hstep. unfold scanLine.
  change (multiStart l) with (docblockStart l). rewrite Hstart, Hd, Hm.
  split; [|split; [|split; [|split]]].
  - destruct (indentAmount st) as [indent|]; [reflexivity|].
    destruct l; reflexivity.
  - destruct (indentAmount st) as [indent|]; [split; reflexivity|].
    destruct l as [|c l'] eqn:El; [split; reflexivity|].
    rewrite <- El. cbn. rewrite replace_indent_take_space.
    split; reflexivity.
  - intros indent rest. unfold replace_indent.
    rewrite strip_indent_app. reflexivity.
  - intros indent Hno. unfold replace_indent.
    destruct (strip_indent indent l) as [rest|] eqn:E; [|reflexivity].
    apply strip_indent_Some in E. destruct (Hno rest E).
  - intros st0 Hreach. apply reachable_inv in Hreach.
    destruct Hreach as (_ & Hmulti & _). exact Hmulti.
Qed.

Lemma multi_line_indentation_witness :
  let st := {| blocks := [];
               block := {| line := 1; text := [];
                           raw := "/*" ++ [LF] ++ [LF] |};
               indentAmount := None; insideSingleBlock := false;
               insideMultiBlock := true; insideDocblock := false |} in
  let st1 := step 2 ("  Buttons  " : str) st in
  let st2 := step 3 ("    primary" : str) st1 in
  let st3 := step 4 (" flush" : str) st2 in
  (indentAmount st1 = Some ("  " : str)
   /\ text (block st1) = "Buttons" ++ [LF])
  /\ text (block st2) = "Buttons" ++ [LF] ++ "  primary" ++ [LF]
  /\ text (block st3)
     = "Buttons" ++ [LF] ++ "  primary" ++ [LF] ++ " flush" ++ [LF].
Proof.
  intros st st1 st2 st3.
  pose proof (multi_line_indentation 2 ("  Buttons  " : str) st
                eq_refl eq_refl eq_refl eq_refl eq_refl) as (_ & H1 & _).
  pose proof (multi_line_indentation 3 ("    primary" : str) st1
                eq_refl eq_refl eq_refl eq_refl eq_refl) as (_ & H2 & _).
  pose proof (multi_line_indentation 4 (" flush" : str) st2
                eq_refl eq_refl eq_refl eq_refl eq_refl) as (_ & H3 & _).
  split; [exact H1|]. split; [apply H2|apply H3].
Defined.

(* ===================================================================== *)
(** ** The separators of the mini-grammar                                 *)
(* ===================================================================== *)

Lemma take_space_app_spaces (w s : str) :
  forallb is_space w = true -> take_space (w ++ s) = w ++ take_space s.
Proof.
  induction w as [|c w IH]; simpl; [reflexivity|].
  intros H. apply andb_prop in H as [Hc Hw].
  rewrite Hc, IH by exact Hw. reflexivity.
Qed.

Lemma drop_space_app_spaces (w s : str) :
  forallb is_space w = true -> drop_space (w ++ s) = drop_space s.
Proof.
  induction w as [|c w IH]; simpl; [reflexivity|].
  intros H. apply andb_prop in H as [Hc Hw].
  rewrite Hc. apply IH, Hw.
Qed.

Lemma take_space_no_lead (s : str) : leading_space s = false -> take_space s = [].
Proof. destruct s as [|c s]; simpl; [reflexivity|]. intros ->. reflexivity. Qed.


Lemma spaces_inv (w : str) :
  spaces w = true -> w <> [] /\ forallb is_space w = true.
Proof. destruct w; simpl; [discriminate|]. intros H. split; [discriminate|exact H]. Qed.

Lemma no_space_lead (s t : str) :
  no_space s = true -> s <> [] -> leading_space (s ++ t) = false.
Proof.
  destruct s as [|c s]; [congruence|]. simpl. intros H _.
  apply andb_prop in H as [Hc _]. destruct (is_space c); [discriminate|reflexivity].
Qed.

(** The separator matches where it stands: white space, the character,
    white space, then something that does not start with white space. *)
Lemma match_sep_here (x : ascii) (w1 w2 s : str) :
  is_space x = false -> spaces w1 = true -> spaces w2 = true ->
  leading_space s = false ->
  match_sep x (w1 ++ x :: w2 ++ s) = Some (length w1 + 1 + length w2).
Proof.
  intros Hx H1 H2 Hs.
  apply spaces_inv in H1 as [Hne1 Hw1]. apply spaces_inv in H2 as [Hne2 Hw2].
  unfold match_sep.
  rewrite take_space_app_spaces, drop_space_app_spaces by exact Hw1.
  cbn [take_space drop_space]. rewrite Hx, app_nil_r.
  destruct w1 as [|a w1]; [congruence|]. cbn [app].
  rewrite Ascii.eqb_refl.
  rewrite take_space_app_spaces, take_space_no_lead, app_nil_r by assumption.
  destruct w2 as [|b w2]; [congruence|]. reflexivity.
Qed.

Lemma match_sep_no_lead (x : ascii) (s : str) :
  leading_space s = false -> match_sep x s = None.
Proof.
  intros H. unfold match_sep. rewrite take_space_no_lead by exact H.
  reflexivity.
Qed.

(** ** Where no separator starts *)

Lemma quiet_nil (x : ascii) (s : str) : quiet x [] s.
Proof. intros k Hk. simpl in Hk. lia. Qed.

Lemma quiet_cons (x : ascii) (c : ascii) (p s : str) :
  match_sep x (c :: p ++ s) = None -> quiet x p s -> quiet x (c :: p) s.
Proof.
  intros H0 Hp [|k] Hk; [exact H0|]. apply Hp. simpl in Hk. lia.
Qed.

Lemma quiet_app (x : ascii) (p q s : str) :
  quiet x p (q ++ s) -> quiet x q s -> quiet x (p ++ q) s.
Proof.
  induction p as [|c p IH]; intros Hp Hq; [exact Hq|].
  cbn [app]. apply quiet_cons.
  - specialize (Hp 0 ltac:(simpl; lia)). cbn in Hp.
    rewrite <- app_assoc. exact Hp.
  - apply IH; [|exact Hq].
    intros k Hk. apply (Hp (S k)). simpl. lia.
Qed.

Lemma quiet_token (x : ascii) (p s : str) : no_space p = true -> quiet x p s.
Proof.
  induction p as [|c p IH]; intros H; [apply quiet_nil|].
  simpl in H. apply andb_prop in H as [Hc Hp].
  apply quiet_cons; [|apply IH, Hp].
  apply match_sep_no_lead. simpl.
  destruct (is_space c); [discriminate|reflexivity].
Qed.

(** White space followed by a character other than [x]. *)
Lemma quiet_spaces_other (x c : ascii) (w s : str) :
  forallb is_space w = true -> is_space c = false -> Ascii.eqb c x = false ->
  quiet x w (c :: s).
Proof.
  induction w as [|a w IH]; intros Hw Hc Hx; [apply quiet_nil|].
  simpl in Hw. apply andb_prop in Hw as [Ha Hw].
  apply quiet_cons; [|apply IH; assumption].
  unfold match_sep.
  change (a :: w ++ c :: s) with ((a :: w) ++ c :: s).
  rewrite drop_space_app_spaces by (simpl; rewrite Ha; exact Hw).
  cbn [drop_space]. rewrite Hc, Hx.
  destruct (take_space _); reflexivity.
Qed.

(** White space followed by [x] and then by something that is not white
    space. *)
Lemma quiet_spaces_glued (x : ascii) (w s : str) :
  forallb is_space w = true -> is_space x = false ->
  leading_space s = false ->
  quiet x w (x :: s).
Proof.
  induction w as [|a w IH]; intros Hw Hx Hs; [apply quiet_nil|].
  simpl in Hw. apply andb_prop in Hw as [Ha Hw].
  apply quiet_cons; [|apply IH; assumption].
  unfold match_sep.
  change (a :: w ++ x :: s) with ((a :: w) ++ x :: s).
  rewrite drop_space_app_spaces by (simpl; rewrite Ha; exact Hw).
  cbn [drop_space]. rewrite Hx, Ascii.eqb_refl.
  rewrite (take_space_no_lead s Hs).
  destruct (take_space _); reflexivity.
Qed.

Lemma quiet_inv (x c : ascii) (p s : str) :
  quiet x (c :: p) s -> match_sep x (c :: p ++ s) = None /\ quiet x p s.
Proof.
  intros H. split.
  - apply (H 0). simpl. lia.
  - intros k Hk. apply (H (S k)). simpl. lia.
Qed.

(** ** [split] and [test] on the separators *)

Lemma split_re_quiet (x : ascii) (p s : str) : forall cur,
  quiet x p s ->
  split_re (match_sep x) 0 cur (p ++ s)
  = split_re (match_sep x) 0 (cur ++ p) s.
Proof.
  induction p as [|c p IH]; intros cur Hq.
  - rewrite app_nil_r. reflexivity.
  - apply quiet_inv in Hq as [H0 Hp].
    cbn [app split_re]. rewrite H0, IH by exact Hp.
    rewrite <- app_assoc. reflexivity.
Qed.

Lemma split_re_skip (m : str -> option nat) (a s cur : str) :
  split_re m (length a) cur (a ++ s) = split_re m 0 cur s.
Proof.
  induction a as [|c a IH]; [|exact IH].
  destruct s; reflexivity.
Qed.

Lemma split_re_sep (x : ascii) (w1 w2 s cur : str) :
  is_space x = false -> spaces w1 = true -> spaces w2 = true ->
  leading_space s = false ->
  split_re (match_sep x) 0 cur (w1 ++ x :: w2 ++ s)
  = cur :: split_re (match_sep x) 0 [] s.
Proof.
  intros Hx H1 H2 Hs.
  pose proof (match_sep_here x w1 w2 s Hx H1 H2 Hs) as Hm.
  destruct w1 as [|a w1]; [discriminate|].
  cbn [app split_re] in *. rewrite Hm.
  cbn [length Nat.add].
  replace (w1 ++ x :: w2 ++ s) with ((w1 ++ x :: w2) ++ s)
    by (rewrite <- app_assoc; reflexivity).
  replace (length w1 + 1 + length w2) with (length (w1 ++ x :: w2))
    by (rewrite length_app; simpl; lia).
  rewrite split_re_skip. reflexivity.
Qed.

Lemma split_first_piece (x : ascii) (p w1 w2 s : str) :
  quiet x p (w1 ++ x :: w2 ++ s) ->
  is_space x = false -> spaces w1 = true -> spaces w2 = true ->
  leading_space s = false ->
  split (match_sep x) (p ++ w1 ++ x :: w2 ++ s)
  = p :: split (match_sep x) s.
Proof.
  intros Hq Hx H1 H2 Hs. unfold split.
  rewrite split_re_quiet by exact Hq.
  apply split_re_sep; assumption.
Qed.

Lemma split_token (x : ascii) (p : str) :
  no_space p = true -> split (match_sep x) p = [p].
Proof.
  intros H. unfold split.
  rewrite <- (app_nil_r p) at 1.
  rewrite split_re_quiet by (apply quiet_token, H). reflexivity.
Qed.

Lemma test_re_here (m : str -> option nat) (s : str) (n : nat) :
  m s = Some n -> test_re m s = true.
Proof. intros H. destruct s; simpl; rewrite H; reflexivity. Qed.

Lemma test_re_app (m : str -> option nat) (p s : str) (n : nat) :
  m s = Some n -> test_re m (p ++ s) = true.
Proof.
  intros H. induction p as [|c p IH]; [exact (test_re_here m s n H)|].
  cbn [app test_re]. destruct (m (c :: p ++ s)); [reflexivity|exact IH].
Qed.

Lemma test_re_token (x : ascii) (p : str) :
  no_space p = true -> test_re (match_sep x) p = false.
Proof.
  induction p as [|c p IH]; intros H; [reflexivity|].
  simpl in H. apply andb_prop in H as [Hc Hp].
  cbn [test_re]. rewrite match_sep_no_lead; [exact (IH Hp)|].
  simpl. destruct (is_space c); [discriminate|reflexivity].
Qed.

Lemma remove_first_prefix (p s : str) : remove_first p (p ++ s) = s.
Proof.
  assert (H : remove_first p (p ++ s) = drop (length p) (p ++ s)).
  { destruct (p ++ s) eqn:E; cbn [remove_first]; rewrite <- E;
      rewrite starts_with_app; reflexivity. }
  rewrite H. apply drop_app_length.
Qed.

Lemma strip_dash_sep (w1 w2 s : str) :
  spaces w1 = true -> spaces w2 = true -> leading_space s = false ->
  strip_dash (w1 ++ "-"%char :: w2 ++ s) = s.
Proof.
  intros H1 H2 Hs. unfold strip_dash.
  rewrite match_sep_here by (assumption || reflexivity).
  replace (w1 ++ "-"%char :: w2 ++ s) with ((w1 ++ "-"%char :: w2) ++ s)
    by (rewrite <- app_assoc; reflexivity).
  replace (length w1 + 1 + length w2) with (length (w1 ++ "-"%char :: w2))
    by (rewrite length_app; simpl; lia).
  apply drop_app_length.
Qed.

(** Nothing separates name from description inside [NAME = DEFAULT]. *)
Lemma quiet_name_default (name ws1 ws2 dflt s : str) :
  no_space name = true -> no_space dflt = true ->
  dflt <> [] -> dflt <> ["-"%char] ->
  spaces ws1 = true -> spaces ws2 = true ->
  quiet "-"%char (name ++ ws1 ++ "="%char :: ws2 ++ dflt) s.
Proof.
  intros Hname Hdflt Hne Hdash H1 H2.
  apply spaces_inv in H1 as [_ Hw1]. apply spaces_inv in H2 as [_ Hw2].
  apply quiet_app; [apply quiet_token, Hname|].
  apply quiet_app.
  { cbn [app].
    apply quiet_spaces_other; [exact Hw1|reflexivity|reflexivity]. }
  change ("="%char :: ws2 ++ dflt) with (["="%char] ++ ws2 ++ dflt).
  apply quiet_app; [apply quiet_token; reflexivity|].
  apply quiet_app; [|apply quiet_token, Hdflt].
  destruct dflt as [|d dflt]; [congruence|].
  simpl in Hdflt. apply andb_prop in Hdflt as [Hd Hrest].
  cbn [app]. destruct (Ascii.eqb d "-"%char) eqn:Ed.
  - apply Ascii.eqb_eq in Ed. subst d.
    apply quiet_spaces_glued; [exact Hw2|reflexivity|].
    apply no_space_lead; [exact Hrest|]. intros ->. congruence.
  - apply quiet_spaces_other; [exact Hw2| |exact Ed].
    destruct (is_space d); [discriminate|reflexivity].
Qed.

(* ===================================================================== *)
(** ** Properties of the mini-grammar                                     *)
(* ===================================================================== *)

Section GrammarFacts.

Variable markedInline : str -> option str.

(** What [createParameter] does with an entry whose name-and-default part
    [prefix] is followed by the first separator and the description. *)
Lemma createParameter_pieces (options : Options)
    (prefix ws3 ws4 desc : str) :
  quiet "-"%char prefix (ws3 ++ "-"%char :: ws4 ++ desc) ->
  spaces ws3 = true -> spaces ws4 = true -> leading_space desc = false ->
  createParameter markedInline options
    (prefix ++ ws3 ++ "-"%char :: ws4 ++ desc)
  = (let '(parameter, defaultValue) :=
       if test_re (match_sep "="%char) prefix then
         (item 0 (split (match_sep "="%char) prefix),
          item 1 (split (match_sep "="%char) prefix))
       else (prefix, []) in
     description ← renderInline markedInline options desc;
     Some {| KssParameter.name := parameter;
             KssParameter.defaultValue := defaultValue;
             KssParameter.description := description |}).
Proof.
  intros Hq H3 H4 Hd. unfold createParameter, splitLimit.
  rewrite split_first_piece by (assumption || reflexivity).
  cbn [take item nth].
  rewrite remove_first_prefix, strip_dash_sep by assumption.
  reflexivity.
Qed.

(** C6.  A parameter line of the shape [NAME = DEFAULT - DESCRIPTION], with
    one or more white-space characters around [=] and [-], is split at its
    first [" - "] into the name-and-default part and the description, and
    that part at [" = "] into name and default value; without [= DEFAULT]
    the default value is empty.  The description goes through the inline
    renderer when Markdown is enabled.  In particular
    ["@color = #fff - Button color"] gives the name ["@color"], the
    default value ["#fff"] and the description ["Button color"]. *)
Theorem createParameter_shape (options : Options)
    (name ws1 ws2 dflt ws3 ws4 desc : str) :
  no_space name = true -> no_space dflt = true ->
  dflt <> [] -> dflt <> ("-" : str) ->
  spaces ws1 = true -> spaces ws2 = true ->
  spaces ws3 = true -> spaces ws4 = true ->
  leading_space desc = false ->
  createParameter markedInline options
    (name ++ ws1 ++ "=" ++ ws2 ++ dflt ++ ws3 ++ "-" ++ ws4 ++ desc)
  = (description ← renderInline markedInline options desc;
     Some {| KssParameter.name := name;
             KssParameter.defaultValue := dflt;
             KssParameter.description := description |})
  /\ createParameter markedInline options
       (name ++ ws3 ++ "-" ++ ws4 ++ desc)
     = (description ← renderInline markedInline options desc;
        Some {| KssParameter.name := name;
                KssParameter.defaultValue := [];
                KssParameter.description := description |})
  /\ (markdown options = false ->
      createParameters markedInline
        ["@color = #fff - Button color" : str] options
      = Some [ {| KssParameter.name := "@color";
                  KssParameter.defaultValue := "#fff";
                  KssParameter.description := "Button color" |} ]).
Proof.
  intros Hname Hdflt Hne Hdash H1 H2 H3 H4 Hdesc.
  split; [|split].
  - replace (name ++ ws1 ++ "=" ++ ws2 ++ dflt ++ ws3 ++ "-" ++ ws4 ++ desc)
      with ((name ++ ws1 ++ "="%char :: ws2 ++ dflt)
            ++ ws3 ++ "-"%char :: ws4 ++ desc)
      by (cbn [list_ascii_of_string app]; rewrite <- !app_assoc;
          cbn [app]; rewrite <- !app_assoc; reflexivity).
    rewrite createParameter_pieces; try assumption.
    2: { apply quiet_name_default; assumption. }
    assert (Hlead : leading_space dflt = false).
    { rewrite <- (app_nil_r dflt). apply no_space_lead; assumption. }
    rewrite (test_re_app _ name _ _
               (match_sep_here "="%char ws1 ws2 dflt eq_refl H1 H2 Hlead)).
    rewrite split_first_piece; try assumption; try reflexivity.
    2: { apply quiet_token, Hname. }
    rewrite split_token by exact Hdflt. reflexivity.
  - change (name ++ ws3 ++ "-" ++ ws4 ++ desc)
      with (name ++ ws3 ++ "-"%char :: ws4 ++ desc).
    rewrite createParameter_pieces; try assumption.
    2: { apply quiet_token, Hname. }
    rewrite test_re_token by exact Hname. reflexivity.
  - intros Hmd. unfold createParameters, createParameter, renderInline.
    rewrite Hmd. reflexivity.
Qed.

End GrammarFacts.

Lemma createParameter_shape_witness :
  let off := {| markdown := false; header := true; custom := [] |} in
  createParameter Some off "$size   =  12px 	-  Font size - in pixels"
  = Some {| KssParameter.name := "$size";
            KssParameter.defaultValue := "12px";
            KssParameter.description := "Font size - in pixels" |}.
Proof.
  intros off.
  apply (createParameter_shape Some off
           "$size" "   " "  " "12px" (" " ++ ["009"%char]) "  "
           "Font size - in pixels");
    (reflexivity || discriminate).
Defined.

(** C7.  With Markdown disabled: [":hover - Highlight"] gives the modifier
    [":hover"] with the description ["Highlight"], and a modifier
    description on two lines is folded into one line.  A parameter
    description on two lines is kept as it is, line break and indentation
    included: [createParameters] has no folding step.  In a folded modifier
    description the bar is taken for white space: a run of bars and white
    space becomes one space. *)
Theorem parameter_description_not_folded :
  let off := {| markdown := false; header := true; custom := [] |} in
  createModifiers Some [":hover - Highlight" : str] off
  = Some [ {| KssModifier.name := ":hover";
              KssModifier.description := "Highlight" |} ]
  /\ createModifiers Some
       [ ".primary - Use this class" ++ [LF] ++ "      for the main button" ]
       off
     = Some [ {| KssModifier.name := ".primary";
                 KssModifier.description :=
                   "Use this class for the main button" |} ]
  /\ createParameters Some
       [ "@color - Use this colour" ++ [LF] ++ "      for the main button" ]
       off
     = Some [ {| KssParameter.name := "@color";
                 KssParameter.defaultValue := [];
                 KssParameter.description :=
                   "Use this colour" ++ [LF] ++ "      for the main button" |} ]
  /\ createModifiers Some [ ".both - a || b" ++ [LF] ++ "holds" ] off
     = Some [ {| KssModifier.name := ".both";
                 KssModifier.description := "a b holds" |} ].
Proof. repeat split. Qed.

(* ===================================================================== *)
(** ** Properties of the weight                                           *)
(* ===================================================================== *)

(** C5.  The weight is 8 for the tag value ["8"], and 0 for an absent tag
    and for the value ["invalid"].  For the empty string, for white space
    and for ["Infinity"] the test [isNaN] is false and [parseInt] gives
    not-a-number, which becomes the weight: neither 0 nor any integer. *)
Theorem weight_of_empty_string :
  weightOf (Some (TString "8")) = Int 8
  /\ weightOf None = Int 0
  /\ weightOf (Some (TString "invalid")) = Int 0
  /\ weightOf (Some (TString [])) = NaN
  /\ weightOf (Some (TString "  ")) = NaN
  /\ weightOf (Some (TString "Infinity")) = NaN.
Proof. repeat split. Qed.

(* ===================================================================== *)
(** ** Properties of the section builder                                  *)
(* ===================================================================== *)

(** The object [custom] holds the declared names, [__proto__] apart. *)
Lemma customOf_lookup_notin (commentObject : CommentObject)
    (names : list str) (property : str) : forall acc : SectionObject,
  ~ In property names ->
  fold_left (customStep commentObject) names acc !! property
  = acc !! property.
Proof.
  induction names as [|n names IH]; intros acc Hnot; [reflexivity|].
  cbn [fold_left]. rewrite IH by (intros H; apply Hnot; right; exact H).
  unfold customStep. destruct (bool_decide _); [reflexivity|].
  unfold set. apply lookup_insert_ne.
  intros ->. apply Hnot. left. reflexivity.
Qed.

Lemma customOf_lookup_proto (commentObject : CommentObject)
    (names : list str) : forall acc : SectionObject,
  fold_left (customStep commentObject) names acc !! ("__proto__" : str)
  = acc !! ("__proto__" : str).
Proof.
  induction names as [|n names IH]; intros acc; [reflexivity|].
  cbn [fold_left]. rewrite IH. unfold customStep.
  destruct (bool_decide (n = ("__proto__" : str))) eqn:E; [reflexivity|].
  apply bool_decide_eq_false in E.
  unfold set. apply lookup_insert_ne. exact E.
Qed.

Lemma customOf_lookup_in (commentObject : CommentObject)
    (names : list str) (property : str) : forall acc : SectionObject,
  In property names -> property <> ("__proto__" : str) ->
  fold_left (customStep commentObject) names acc !! property
  = Some (customValue commentObject property).
Proof.
  induction names as [|n names IH]; intros acc Hin Hproto; [destruct Hin|].
  cbn [fold_left].
  destruct (decide (property ∈ names)) as [Hrest|Hrest].
  - apply IH; [apply list_elem_of_In, Hrest|exact Hproto].
  - rewrite customOf_lookup_notin
      by (intros H; apply Hrest, list_elem_of_In, H).
    destruct Hin as [->|Hin].
    + unfold customStep.
      rewrite bool_decide_eq_false_2 by exact Hproto.
      unfold set. apply lookup_insert_eq.
    + destruct Hrest. apply list_elem_of_In, Hin.
Qed.

(** ** The order of the blocks *)

Lemma sorted_snoc (l : list nat) (x : nat) :
  StronglySorted lt l -> Forall (fun y => y < x) l ->
  StronglySorted lt (l ++ [x]).
Proof.
  induction l as [|a l IH]; intros Hs Hx; cbn [app].
  - repeat constructor.
  - inversion Hs as [|? ? Hs' Ha]; subst.
    inversion Hx as [|? ? Hax Hx']; subst.
    constructor; [apply IH; assumption|].
    apply Forall_app. split; [exact Ha|]. constructor; [exact Hax|constructor].
Qed.

Lemma initScan_order : orderInv 0 initScan.
Proof.
  split; [constructor|]. split; [constructor|]. discriminate.
Qed.

Lemma step_order (i : nat) (l : str) (st : Scan) :
  scanInv st -> orderInv i st -> orderInv (S i) (step i l st).
Proof.
  intros (Hs & Hm & Hi & Hb) (Hsorted & Hle & Hcur).
  assert (Hle' : Forall (fun b => line b <= S i) (blocks st)).
  { eapply Forall_impl; [|exact Hle]. simpl. intros b Hb'. lia. }
  assert (Hlt' : Forall (fun b => line b < i + 1) (blocks st)).
  { eapply Forall_impl; [|exact Hle]. simpl. intros b Hb'. lia. }
  assert (Hopen : orderInv (S i)
            (openBlock i (strip_trailing_space l) true st)).
  { split; [exact Hsorted|]. split; [exact Hle'|].
    intros _. cbn. split; [lia|exact Hlt']. }
  unfold step, closes. rewrite Hs, Hm. cbn [orb negb].
  destruct (insideDocblock st) eqn:Hd; cbn [andb].
  - destruct (Hcur eq_refl) as [Hline Hlt].
    destruct (multiFinish (strip_trailing_space l)).
    + split; [|split]; cbn.
      * rewrite map_app. apply sorted_snoc; [exact Hsorted|].
        apply Forall_map. exact Hlt.
      * apply Forall_app. split; [exact Hle'|].
        constructor; [cbn; lia|constructor].
      * discriminate.
    + unfold scanLine. rewrite Hd.
      destruct (docblockStart (strip_trailing_space l)); [exact Hopen|].
      split; [exact Hsorted|]. split; [exact Hle'|].
      intros _. cbn. split; [lia|exact Hlt].
  - unfold scanLine.
    change (multiStart (strip_trailing_space l))
      with (docblockStart (strip_trailing_space l)).
    rewrite Hd, Hm.
    destruct (docblockStart (strip_trailing_space l)); [exact Hopen|].
    split; [exact Hsorted|]. split; [exact Hle'|].
    rewrite Hd. discriminate.
Qed.

Lemma scan_order (ls : list str) : forall i st,
  scanInv st -> orderInv i st -> orderInv (i + length ls) (scan i ls st).
Proof.
  induction ls as [|l ls IH]; intros i st Hinv Hord; cbn [scan length].
  - rewrite Nat.add_0_r. exact Hord.
  - replace (i + S (length ls)) with (S i + length ls) by lia.
    apply IH; [apply step_inv, Hinv|apply step_order; assumption].
Qed.

Lemma findCommentBlocks_sorted (input : str) :
  StronglySorted lt (map line (findCommentBlocks input)).
Proof.
  unfold findCommentBlocks.
  destruct (scan_order (inputLines input) 0 initScan
              initScan_inv initScan_order) as [H _].
  exact H.
Qed.

Section ParseFacts.

Variable docblockParser_parse : str -> CommentObject.
Variable marked : TagValue -> option str.
Variable markedInline : str -> option str.
Variable path_relative : str -> str -> str.

Abbreviation sectionOf' :=
  (sectionOf docblockParser_parse marked markedInline path_relative).
Abbreviation parseComment' :=
  (parseComment docblockParser_parse marked markedInline path_relative).
Abbreviation parseComments' :=
  (parseComments docblockParser_parse marked markedInline path_relative).
Abbreviation parseFiles' :=
  (parseFiles docblockParser_parse marked markedInline path_relative).
Abbreviation parse' :=
  (parse docblockParser_parse marked markedInline path_relative).

(** The custom properties are laid over the section built without them. *)
Lemma sectionOf_custom (options : Options) (file : File) (comment : Block) :
  sectionOf' options file comment
  = match sectionOf' (withCustom options []) file comment with
    | Some plain =>
        Some (option_map
                (fun newSection =>
                   objectAssign newSection
                     (customOf (docblockParser_parse (raw comment))
                               (custom options))) plain)
    | None => None
    end.
Proof.
  unfold sectionOf. cbv zeta.
  change (createModifiers markedInline ?l (withCustom options []))
    with (createModifiers markedInline l options).
  change (createParameters markedInline ?l (withCustom options []))
    with (createParameters markedInline l options).
  cbn [withCustom markdown header custom].
  destruct (co_tags (docblockParser_parse (raw comment)) !! _)
    as [[[|c ref]|refs]|]; try reflexivity.
  all: repeat match goal with
       | |- (?X ≫= _) = _ => destruct X; cbn [mbind option_bind]
       end; try reflexivity.
  all: change (customOf (docblockParser_parse (raw comment)) [])
         with (∅ : SectionObject).
  all: cbn [option_map]; unfold objectAssign.
  all: rewrite (left_id_L ∅ (∪)); reflexivity.
Qed.

(** C4.  A block without the [styleguide] tag gives no section: the loop
    body goes on to the next block when it finds no reference, before any
    renderer is called, so nothing is raised and the list of sections is
    left as it was. *)
Theorem no_reference_no_section (options : Options) (file : File)
    (comment : Block) (sections : list SectionObject) :
  co_tags (docblockParser_parse (raw comment)) !! ("styleguide" : str)
  = None ->
  sectionOf' options file comment = Some None
  /\ parseComment' options file comment sections = Some sections.
Proof.
  intros Hnone.
  assert (H : sectionOf' options file comment = Some None).
  { unfold sectionOf. cbv zeta. rewrite Hnone. reflexivity. }
  split; [exact H|]. unfold parseComment. rewrite H. reflexivity.
Qed.

(** C3.  A block whose tags are the [styleguide] tag alone, with no lead
    text, adds exactly one section to the list: its reference is the value
    of the tag, its description is empty (the renderer, when enabled,
    giving nothing for the empty string), it has no modifiers and no
    parameters, its weight is 0, and it is neither deprecated nor
    experimental.  The custom properties, if any, are taken to have other
    names than the properties of a section. *)
Theorem lone_reference_section (options : Options) (file : File)
    (comment : Block) (sections : list SectionObject) (ref : str) :
  ref <> [] ->
  docblockParser_parse (raw comment)
  = {| co_text := [];
       co_tags := {[ ("styleguide" : str) := TString ref ]} |} ->
  (markdown options = true -> marked (TString []) = Some []) ->
  (forall name, In name (custom options) -> ~ In name builtinProperties) ->
  exists newSection,
    parseComment' options file comment sections
    = Some (sections ++ [newSection])
    /\ get "reference" newSection = Some (VString ref)
    /\ get "description" newSection = Some (VString [])
    /\ get "modifiers" newSection = Some (VModifiers [])
    /\ get "parameters" newSection = Some (VParameters [])
    /\ get "weight" newSection = Some (VNumber (Int 0))
    /\ get "deprecated" newSection = Some (VBoolean false)
    /\ get "experimental" newSection = Some (VBoolean false).
Proof.
  intros Href Hparse Hmarked Hcustom.
  destruct ref as [|c ref]; [congruence|]. clear Href.
  assert (Hplain : exists plain,
            sectionOf' (withCustom options []) file comment
            = Some (Some plain)
            /\ get "reference" plain = Some (VString (c :: ref))
            /\ get "description" plain = Some (VString [])
            /\ get "modifiers" plain = Some (VModifiers [])
            /\ get "parameters" plain = Some (VParameters [])
            /\ get "weight" plain = Some (VNumber (Int 0))
            /\ get "deprecated" plain = Some (VBoolean false)
            /\ get "experimental" plain = Some (VBoolean false)).
  { unfold sectionOf. rewrite Hparse. cbv zeta.
    cbn [co_tags co_text withCustom markdown header custom].
    rewrite lookup_singleton_eq.
    rewrite !lookup_singleton_ne by discriminate. cbn [orEmpty].
    destruct (markdown options) eqn:Hmd; [rewrite (Hmarked eq_refl)|];
      destruct (header options);
      cbn [fmap option_fmap option_map mbind option_bind];
      eexists; (split; [reflexivity|]); repeat split;
      vm_compute; reflexivity. }
  destruct Hplain as (plain & Hplain & Hfields).
  exists (objectAssign plain
            (customOf (docblockParser_parse (raw comment))
                      (custom options))).
  split.
  { unfold parseComment. rewrite sectionOf_custom, Hplain. reflexivity. }
  assert (Hkeep : forall property, In property builtinProperties ->
            get property
              (objectAssign plain
                 (customOf (docblockParser_parse (raw comment))
                           (custom options)))
            = get property plain).
  { intros property Hbuiltin. unfold get, objectAssign.
    apply lookup_union_r. unfold customOf.
    rewrite customOf_lookup_notin; [apply lookup_empty|].
    intros Hin. exact (Hcustom property Hin Hbuiltin). }
  rewrite !Hkeep by (cbn; tauto). exact Hfields.
Qed.

(** ** The order of the sections *)

Lemma parseComment_pushed (options : Options) (file : File)
    (comment : Block) (sections : list SectionObject) :
  parseComment' options file comment sections
  = option_map (fun newSection => sections ++ pushed newSection)
      (sectionOf' options file comment).
Proof.
  unfold parseComment.
  destruct (sectionOf' options file comment) as [[newSection|]|];
    cbn; rewrite ?app_nil_r; reflexivity.
Qed.

Lemma parseComments_acc (options : Options) (file : File)
    (comments : list Block) : forall sections,
  parseComments' options file comments sections
  = option_map (app sections) (parseComments' options file comments []).
Proof.
  induction comments as [|comment rest IH]; intros sections.
  - cbn. rewrite app_nil_r. reflexivity.
  - cbn [parseComments]. rewrite !parseComment_pushed.
    destruct (sectionOf' options file comment) as [newSection|];
      [|reflexivity].
    cbn [option_map mbind option_bind].
    rewrite IH, (IH ([] ++ pushed newSection)).
    destruct (parseComments' options file rest []) as [new|];
      [|reflexivity].
    cbn. rewrite app_assoc. reflexivity.
Qed.

Lemma parseComments_mapM (options : Options) (file : File)
    (comments : list Block) :
  parseComments' options file comments []
  = option_map (fun outcomes => concat (map pushed outcomes))
      (mapM (sectionOf' options file) comments).
Proof.
  induction comments as [|comment rest IH]; [reflexivity|].
  cbn [parseComments mapM]. rewrite parseComment_pushed.
  destruct (sectionOf' options file comment) as [newSection|];
    [|reflexivity].
  cbn [option_map mbind option_bind app].
  rewrite parseComments_acc, IH.
  destruct (mapM (sectionOf' options file) rest) as [outcomes|];
    reflexivity.
Qed.

Lemma parseFiles_acc (options : Options) (files : list File) :
  forall sections,
  parseFiles' options files sections
  = option_map (app sections) (parseFiles' options files []).
Proof.
  induction files as [|file rest IH]; intros sections.
  - cbn. rewrite app_nil_r. reflexivity.
  - cbn [parseFiles].
    rewrite (parseComments_acc _ _ _ sections).
    destruct (parseComments' options file
                (findCommentBlocks (file_contents file)) []) as [new|];
      [|reflexivity].
    cbn [option_map mbind option_bind].
    rewrite IH, (IH new).
    destruct (parseFiles' options rest []) as [more|]; [|reflexivity].
    cbn. rewrite app_assoc. reflexivity.
Qed.

Lemma parseFiles_app (options : Options) (files1 files2 : list File) :
  parseFiles' options (files1 ++ files2) []
  = match parseFiles' options files1 [], parseFiles' options files2 [] with
    | Some sections1, Some sections2 => Some (sections1 ++ sections2)
    | _, _ => None
    end.
Proof.
  induction files1 as [|file rest IH].
  - cbn. destruct (parseFiles' options files2 []); reflexivity.
  - cbn [app parseFiles].
    destruct (parseComments' options file
                (findCommentBlocks (file_contents file)) []) as [new|];
      [|reflexivity].
    cbn [mbind option_bind].
    rewrite (parseFiles_acc _ (rest ++ files2) new), IH.
    rewrite (parseFiles_acc _ rest new).
    destruct (parseFiles' options rest []) as [s1|]; [|reflexivity].
    destruct (parseFiles' options files2 []) as [s2|]; [|reflexivity].
    cbn. rewrite app_assoc. reflexivity.
Qed.

Lemma parse_sections (options : option RawOptions) (files : list File) :
  option_map data_sections (parse' (Many files) options)
  = parseFiles' (withDefaults options) files [].
Proof.
  unfold parse.
  destruct (parseFiles' (withDefaults options) files []); reflexivity.
Qed.

(** C8.  The sections of the style guide are in input order: the sections
    of a list of files are those of its first files followed by those of
    its later files; the sections of one file are what its blocks give,
    block after block, in the order in which [findCommentBlocks] returns
    them, which is that of the text (their line numbers increase); and the
    style guide keeps the list as [parse] built it. *)
Theorem sections_keep_input_order (options : option RawOptions)
    (files1 files2 : list File) (file : File) (input : str) :
  option_map data_sections (parse' (Many (files1 ++ files2)) options)
  = match option_map data_sections (parse' (Many files1) options),
          option_map data_sections (parse' (Many files2) options) with
    | Some sections1, Some sections2 => Some (sections1 ++ sections2)
    | _, _ => None
    end
  /\ option_map data_sections (parse' (Many [file]) options)
     = option_map (fun outcomes => concat (map pushed outcomes))
         (mapM (sectionOf' (withDefaults options) file)
               (findCommentBlocks (file_contents file)))
  /\ StronglySorted lt (map line (findCommentBlocks input)).
Proof.
  rewrite !parse_sections. split; [apply parseFiles_app|].
  split; [|apply findCommentBlocks_sorted].
  cbn [parseFiles]. rewrite parseComments_mapM.
  destruct (mapM _ _) as [outcomes|]; reflexivity.
Qed.

End ParseFacts.

(** ** Instances with the outside libraries fixed *)

Lemma no_reference_no_section_witness :
  let parser := fun _ : str =>
    {| co_text := "Just a comment"; co_tags := ∅ |} in
  let comment :=
    {| line := 1; text := "Just a comment";
       raw := "/**" ++ [LF] ++ " * Just a comment" ++ [LF] |} in
  parseComment parser (fun _ => None) (fun _ => None) (fun _ p => p)
    (withDefaults None) (Contents []) comment []
  = Some [].
Proof.
  intros parser comment.
  apply (no_reference_no_section parser (fun _ => None) (fun _ => None)
           (fun _ p => p) (withDefaults None) (Contents []) comment []).
  reflexivity.
Defined.

Lemma lone_reference_section_witness :
  let parser := fun _ : str =>
    {| co_text := [];
       co_tags := {[ ("styleguide" : str) := TString "x.y.z" ]} |} in
  let comment :=
    {| line := 1; text := "@styleguide x.y.z";
       raw := "/**" ++ [LF] ++ " * @styleguide x.y.z" ++ [LF] |} in
  exists newSection,
    parseComment parser (fun v => Some (toString v)) Some (fun _ p => p)
      (withDefaults None) (Contents []) comment []
    = Some ([] ++ [newSection])
    /\ get "reference" newSection = Some (VString "x.y.z")
    /\ get "description" newSection = Some (VString [])
    /\ get "modifiers" newSection = Some (VModifiers [])
    /\ get "parameters" newSection = Some (VParameters [])
    /\ get "weight" newSection = Some (VNumber (Int 0))
    /\ get "deprecated" newSection = Some (VBoolean false)
    /\ get "experimental" newSection = Some (VBoolean false).
Proof.
  intros parser comment.
  apply (lone_reference_section parser (fun v => Some (toString v)) Some
           (fun _ p => p) (withDefaults None) (Contents []) comment []
           "x.y.z").
  - discriminate.
  - reflexivity.
  - intros _. reflexivity.
  - intros name [].
Defined.

(* ===================================================================== *)
(** ** More on the comment-block extractor                                *)
(* ===================================================================== *)

Lemma step_idle (i : nat) (l : str) :
  isStart l = false -> step i l initScan = initScan.
Proof.
  unfold isStart. intros H. unfold step, closes. cbn.
  unfold scanLine.
  change (multiStart (strip_trailing_space l))
    with (docblockStart (strip_trailing_space l)).
  rewrite H. reflexivity.
Qed.

Lemma scan_idle (ls : list str) : forall i,
  Forall (fun l => isStart l = false) ls -> scan i ls initScan = initScan.
Proof.
  induction ls as [|l ls IH]; intros i Hall; [reflexivity|].
  inversion Hall as [|? ? Hl Hls]; subst.
  cbn [scan]. rewrite step_idle by exact Hl. apply IH, Hls.
Qed.

(** A text without a line that is a doc-block open delimiter, white space
    apart, has no block: neither plain style rules, nor a comment opened by
    a slash and a single asterisk, nor a comment on one line. *)
Theorem no_opening_line_no_block (input : str) :
  Forall (fun l => isStart l = false) (inputLines input) ->
  findCommentBlocks input = [].
Proof.
  intros H. unfold findCommentBlocks. rewrite scan_idle by exact H.
  reflexivity.
Qed.

Lemma no_opening_line_no_block_witness :
  findCommentBlocks
    ("/*" ++ [LF] ++ " * @styleguide a" ++ [LF] ++ " */" ++ [LF]
     ++ "a { content: '/**'; } /** one line */")
  = [].
Proof.
  apply no_opening_line_no_block. repeat constructor.
Defined.

(** ** What a block is made of *)

Lemma start_not_finish (l : str) :
  docblockStart l = true -> multiFinish l = false.
Proof.
  unfold docblockStart, multiFinish.
  destruct (drop_space l) as [|c r]; [discriminate|].
  destruct c as [[] [] [] [] [] [] [] []]; try discriminate; reflexivity.
Qed.

Lemma rawOf_snoc (seg : list str) (l : str) :
  rawOf (seg ++ [l]) = rawOf seg ++ strip_trailing_space l ++ [LF].
Proof.
  unfold rawOf. rewrite map_app, concat_app. cbn.
  rewrite app_nil_r. reflexivity.
Qed.

Lemma textOf_snoc_start (seg : list str) (l : str) :
  isStart l = true -> textOf (seg ++ [l]) = textOf seg.
Proof.
  intros H. unfold textOf. rewrite List.filter_app. cbn.
  rewrite H. cbn. rewrite app_nil_r. reflexivity.
Qed.

Lemma textOf_snoc_other (seg : list str) (l : str) :
  isStart l = false ->
  textOf (seg ++ [l])
  = textOf seg ++ strip_marker (strip_trailing_space l) ++ [LF].
Proof.
  intros H. unfold textOf. rewrite List.filter_app. cbn.
  rewrite H. cbn. rewrite map_app, concat_app. cbn.
  rewrite app_nil_r. reflexivity.
Qed.

Lemma madeOf_open (read : list str) (l : str) (b : Block) :
  isStart l = true ->
  raw b = strip_trailing_space l ++ [LF] -> line b = length read + 1 ->
  madeOf read [l] b.
Proof.
  intros Hstart Hraw Hline. unfold madeOf.
  split; [exists l, []; split; [reflexivity|exact Hstart]|].
  split.
  { constructor; [|constructor].
    apply start_not_finish. exact Hstart. }
  split; [rewrite Hraw; cbn; rewrite app_nil_r; reflexivity|].
  split; [cbn; lia|].
  exists l. split; [|exact Hstart].
  apply list_lookup_middle. lia.
Qed.

Lemma madeOf_add (before seg : list str) (l : str) (b b' : Block) :
  madeOf before seg b -> isFinish l = false ->
  raw b' = raw b ++ strip_trailing_space l ++ [LF] -> line b' = line b ->
  madeOf before (seg ++ [l]) b'.
Proof.
  intros ((l0 & seg' & -> & Hstart) & Hopen & Hraw & Hrange & l1 & Hl1 & Hs1)
         Hl Hraw' Hline.
  unfold madeOf.
  split; [exists l0, (seg' ++ [l]); split; [reflexivity|exact Hstart]|].
  split; [apply Forall_app; split; [exact Hopen|repeat constructor; exact Hl]|].
  split; [rewrite Hraw', Hraw, rawOf_snoc; reflexivity|].
  split; [rewrite Hline, length_app; cbn [length] in *; lia|].
  exists l1. split; [|exact Hs1].
  rewrite Hline, app_assoc. apply lookup_app_l_Some, Hl1.
Qed.

Lemma madeOf_reopen (before seg : list str) (l : str) (b b' : Block) :
  madeOf before seg b -> isStart l = true ->
  raw b' = raw b ++ strip_trailing_space l ++ [LF] ->
  line b' = length (before ++ seg) + 1 ->
  madeOf before (seg ++ [l]) b'.
Proof.
  intros ((l0 & seg' & -> & Hstart) & Hopen & Hraw & Hrange & _)
         Hl Hraw' Hline.
  unfold madeOf.
  split; [exists l0, (seg' ++ [l]); split; [reflexivity|exact Hstart]|].
  split.
  { apply Forall_app. split; [exact Hopen|].
    repeat constructor. apply start_not_finish, Hl. }
  split; [rewrite Hraw', Hraw, rawOf_snoc; reflexivity|].
  rewrite length_app in Hline.
  split; [rewrite Hline, length_app; cbn [length]; lia|].
  exists l. split; [|exact Hl].
  rewrite app_assoc. apply list_lookup_middle.
  rewrite Hline, length_app. lia.
Qed.

Lemma saved_after (read : list str) (l : str) (bs : list Block) :
  Forall (fun b => exists before seg closing after,
            read = before ++ seg ++ closing :: after
            /\ madeOf before seg b /\ isFinish closing = true
            /\ text b = strip_trailing_lf (strip_leading_lf (textOf seg)))
         bs ->
  Forall (fun b => exists before seg closing after,
            read ++ [l] = before ++ seg ++ closing :: after
            /\ madeOf before seg b /\ isFinish closing = true
            /\ text b = strip_trailing_lf (strip_leading_lf (textOf seg)))
         bs.
Proof.
  apply Forall_impl.
  intros b (before & seg & closing & after & -> & H).
  exists before, seg, closing, (after ++ [l]). split; [|exact H].
  rewrite <- !app_assoc. reflexivity.
Qed.

Lemma step_content (l : str) (read : list str) (st : Scan) :
  scanInv st -> contentInv read st ->
  contentInv (read ++ [l]) (step (length read) l st).
Proof.
  intros (Hs & Hm & Hi & Hb) (Hcur & Hsaved).
  apply saved_after with (l := l) in Hsaved as Hsaved'.
  unfold step, closes. rewrite Hs, Hm. cbn [orb negb].
  destruct (insideDocblock st) eqn:Hd; cbn [andb].
  - destruct (Hcur eq_refl) as (before & seg & -> & Hmade & Htext).
    destruct (multiFinish (strip_trailing_space l)) eqn:Hf.
    + split; [discriminate|]. cbn [blocks saveBlock].
      apply Forall_app. split; [exact Hsaved'|].
      constructor; [|constructor].
      exists before, seg, l, []. split; [symmetry; apply app_assoc|].
      split; [|split; [exact Hf|cbn; rewrite Htext; reflexivity]].
      destruct Hmade as (H1 & H2 & H3 & H4 & H5).
      exact (conj H1 (conj H2 (conj H3 (conj H4 H5)))).
    + unfold scanLine. rewrite Hd.
      destruct (docblockStart (strip_trailing_space l)) eqn:Hstart.
      * split; [|exact Hsaved']. intros _.
        exists before, (seg ++ [l]). split; [symmetry; apply app_assoc|].
        split; [|cbn; rewrite textOf_snoc_start by exact Hstart; exact Htext].
        apply (madeOf_reopen before seg l (block st));
          [exact Hmade|exact Hstart|reflexivity|reflexivity].
      * split; [|exact Hsaved']. intros _.
        exists before, (seg ++ [l]). split; [symmetry; apply app_assoc|].
        split; [|cbn; rewrite textOf_snoc_other by exact Hstart;
                 rewrite Htext; reflexivity].
        apply (madeOf_add before seg l (block st));
          [exact Hmade|exact Hf|reflexivity|reflexivity].
  - unfold scanLine.
    change (multiStart (strip_trailing_space l))
      with (docblockStart (strip_trailing_space l)).
    rewrite Hd, Hm.
    destruct (docblockStart (strip_trailing_space l)) eqn:Hstart.
    + split; [|exact Hsaved']. intros _.
      exists read, [l]. split; [reflexivity|].
      cbn [openBlock block text raw line]. rewrite (Hb eq_refl).
      split; [|cbn; unfold isStart; rewrite Hstart; reflexivity].
      apply madeOf_open; [exact Hstart|reflexivity|reflexivity].
    + split; [|exact Hsaved']. rewrite Hd. discriminate.
Qed.

Lemma scan_content (ls : list str) : forall read st,
  scanInv st -> contentInv read st ->
  contentInv (read ++ ls) (scan (length read) ls st).
Proof.
  induction ls as [|l ls IH]; intros read st Hinv Hcontent; cbn [scan].
  - rewrite app_nil_r. exact Hcontent.
  - replace (read ++ l :: ls) with ((read ++ [l]) ++ ls)
      by (rewrite <- app_assoc; reflexivity).
    replace (S (length read)) with (length (read ++ [l]))
      by (rewrite length_app; cbn; lia).
    apply IH; [apply step_inv, Hinv|apply step_content; assumption].
Qed.

Lemma findCommentBlocks_content (input : str) (b : Block) :
  In b (findCommentBlocks input) ->
  exists before seg closing after,
    inputLines input = before ++ seg ++ closing :: after
    /\ madeOf before seg b /\ isFinish closing = true
    /\ text b = strip_trailing_lf (strip_leading_lf (textOf seg)).
Proof.
  intros Hb. unfold findCommentBlocks in Hb.
  assert (H0 : contentInv [] initScan).
  { split; [discriminate|constructor]. }
  destruct (scan_content (inputLines input) [] initScan initScan_inv H0)
    as [_ Hsaved].
  rewrite Forall_forall in Hsaved. exact (Hsaved b Hb).
Qed.

(** Every block comes from consecutive lines of the input: an opening line
    and the lines after it up to, and without, the first closing line.
    [raw] is these lines, each without its trailing white space and ended by
    a line feed, so the closing delimiter is not part of it.  [text] is, for
    the lines that are not open delimiters, the line without its marker,
    with the line feeds at both ends removed. *)
Theorem block_raw_and_text (input : str) (b : Block) :
  In b (findCommentBlocks input) ->
  exists before seg closing after,
    inputLines input = before ++ seg ++ closing :: after
    /\ (exists l seg', seg = l :: seg' /\ isStart l = true)
    /\ Forall (fun l => isFinish l = false) seg
    /\ isFinish closing = true
    /\ raw b = rawOf seg
    /\ text b = strip_trailing_lf (strip_leading_lf (textOf seg)).
Proof.
  intros Hb.
  destruct (findCommentBlocks_content input b Hb)
    as (before & seg & closing & after & Hlines & Hmade & Hclose & Htext).
  destruct Hmade as (Hhead & Hopen & Hraw & _).
  exists before, seg, closing, after. repeat split; assumption.
Qed.

Lemma block_raw_and_text_witness :
  let input : str :=
    ".a {}" ++ [LF] ++ "/**  " ++ [LF] ++ " * Title " ++ [LF]
    ++ "   indented" ++ [LF] ++ " */" ++ [LF] ++ ".b {}" in
  let b := {| line := 2; text := "Title" ++ [LF] ++ "   indented";
              raw := "/**" ++ [LF] ++ " * Title" ++ [LF]
                     ++ "   indented" ++ [LF] |} in
  exists before seg closing after,
    inputLines input = before ++ seg ++ closing :: after
    /\ (exists l seg', seg = l :: seg' /\ isStart l = true)
    /\ Forall (fun l => isFinish l = false) seg
    /\ isFinish closing = true
    /\ raw b = rawOf seg
    /\ text b = strip_trailing_lf (strip_leading_lf (textOf seg)).
Proof.
  intros input b. apply (block_raw_and_text input b). left. reflexivity.
Defined.

(** The line number of a block is the number, counted from 1, of a line of
    the input that is an open delimiter. *)
Theorem block_line_is_opening_line (input : str) (b : Block) :
  In b (findCommentBlocks input) ->
  1 <= line b <= length (sourceLines input)
  /\ exists l, sourceLines input !! (line b - 1) = Some l /\ isStart l = true.
Proof.
  intros Hb.
  destruct (findCommentBlocks_content input b Hb)
    as (before & seg & closing & after & Hlines & Hmade & _).
  destruct Hmade as (_ & _ & _ & Hrange & l & Hl & Hstart).
  assert (Hlen : length (inputLines input) = length (sourceLines input) + 1).
  { rewrite inputLines_sourceLines, length_app. reflexivity. }
  assert (Hlen' : length (inputLines input)
                  = length before + length seg + S (length after)).
  { rewrite Hlines, !length_app. cbn [length]. lia. }
  split; [lia|]. exists l. split; [|exact Hstart].
  assert (Hin : inputLines input !! (line b - 1) = Some l).
  { rewrite Hlines, app_assoc. apply lookup_app_l_Some, Hl. }
  rewrite inputLines_sourceLines in Hin.
  rewrite lookup_app_l in Hin by lia. exact Hin.
Qed.

Lemma block_line_is_opening_line_witness :
  let input : str :=
    ".a {}" ++ [LF] ++ "/**" ++ [LF] ++ "/**" ++ [LF] ++ " * Title"
    ++ [LF] ++ " */" in
  let b := {| line := 3; text := "Title";
              raw := "/**" ++ [LF] ++ "/**" ++ [LF] ++ " * Title" ++ [LF] |} in
  1 <= line b <= length (sourceLines input)
  /\ exists l, sourceLines input !! (line b - 1) = Some l /\ isStart l = true.
Proof.
  intros input b.
  apply (block_line_is_opening_line input b). left. reflexivity.
Defined.

Lemma strip_leading_lf_head (s : str) : head (strip_leading_lf s) <> Some LF.
Proof.
  induction s as [|c s IH]; cbn; [discriminate|].
  destruct (is_lf c) eqn:E; [exact IH|].
  cbn. intros [= ->]. discriminate E.
Qed.

Lemma strip_trailing_lf_nil (s : str) :
  strip_trailing_lf s = [] -> forallb is_lf s = true.
Proof.
  destruct s as [|c s]; [reflexivity|]. cbn [strip_trailing_lf].
  destruct (forallb is_lf (c :: s)); [reflexivity|discriminate].
Qed.

Lemma strip_trailing_lf_last (s : str) : list.last (strip_trailing_lf s) <> Some LF.
Proof.
  induction s as [|c s IH]; [discriminate|].
  cbn [strip_trailing_lf].
  destruct (forallb is_lf (c :: s)) eqn:E; [discriminate|].
  destruct (strip_trailing_lf s) as [|d r] eqn:Es.
  - apply strip_trailing_lf_nil in Es. cbn in E. rewrite Es, andb_true_r in E.
    cbn. intros [= ->]. discriminate E.
  - exact IH.
Qed.

Lemma strip_trailing_lf_head (s : str) :
  head s <> Some LF -> head (strip_trailing_lf s) <> Some LF.
Proof.
  destruct s as [|c s]; [intros _; discriminate|].
  cbn [strip_trailing_lf].
  destruct (forallb is_lf (c :: s)); [intros _; discriminate|].
  intros H. exact H.
Qed.

(** The text of a block neither starts nor ends with a line feed: the
    blank lines before its first and after its last line are left out. *)
Theorem block_text_trimmed (input : str) (b : Block) :
  In b (findCommentBlocks input) ->
  head (text b) <> Some LF /\ list.last (text b) <> Some LF.
Proof.
  intros Hb.
  destruct (findCommentBlocks_content input b Hb)
    as (before & seg & closing & after & _ & _ & _ & ->).
  split; [|apply strip_trailing_lf_last].
  apply strip_trailing_lf_head, strip_leading_lf_head.
Qed.

Lemma block_text_trimmed_witness :
  let input : str :=
    "/**" ++ [LF] ++ " *" ++ [LF] ++ " * Title" ++ [LF] ++ " *" ++ [LF]
    ++ " */" in
  let b := {| line := 1; text := "Title";
              raw := "/**" ++ [LF] ++ " *" ++ [LF] ++ " * Title" ++ [LF]
                     ++ " *" ++ [LF] |} in
  head (text b) <> Some LF /\ list.last (text b) <> Some LF.
Proof.
  intros input b. apply (block_text_trimmed input b). left. reflexivity.
Defined.

(** ** Line endings *)

Lemma no_eol_cons (c : ascii) (l : str) :
  no_eol (c :: l) = true ->
  Ascii.eqb c CR = false /\ Ascii.eqb c LF = false /\ no_eol l = true.
Proof.
  cbn. intros H. apply andb_prop in H as [Hc Hl].
  destruct (Ascii.eqb c CR), (Ascii.eqb c LF); try discriminate.
  repeat split. exact Hl.
Qed.

Lemma replace_crlf_line (l rest : str) :
  no_eol l = true -> replace_crlf (l ++ rest) = l ++ replace_crlf rest.
Proof.
  induction l as [|c l IH]; intros H; [reflexivity|].
  apply no_eol_cons in H as (Hcr & _ & Hl).
  cbn [app replace_crlf]. rewrite Hcr, IH by exact Hl. reflexivity.
Qed.

Lemma replace_cr_line (l rest : str) :
  no_eol l = true ->
  replace_char CR LF (l ++ rest) = l ++ replace_char CR LF rest.
Proof.
  induction l as [|c l IH]; intros H; [reflexivity|].
  apply no_eol_cons in H as (Hcr & _ & Hl).
  cbn. rewrite Hcr. f_equal. apply IH, Hl.
Qed.

Lemma split_lf_line (l rest : str) :
  no_eol l = true -> split_lf (l ++ LF :: rest) = l :: split_lf rest.
Proof.
  induction l as [|c l IH]; intros H; [reflexivity|].
  apply no_eol_cons in H as (_ & Hlf & Hl).
  cbn [app split_lf]. unfold is_lf at 1. rewrite Hlf, IH by exact Hl.
  reflexivity.
Qed.

Lemma joinLines_cons (eol l : str) (ls : list str) :
  joinLines eol (l :: ls) = l ++ eol ++ joinLines eol ls.
Proof. unfold joinLines. cbn. rewrite <- app_assoc. reflexivity. Qed.

Lemma lines_of_joined (ls : list str) :
  Forall (fun l => no_eol l = true) ls ->
  split_lf (joinLines [LF] ls ++ [LF]) = ls ++ [[]; []].
Proof.
  induction 1 as [|l ls Hl _ IH]; [reflexivity|].
  rewrite joinLines_cons, <- !app_assoc. cbn [app].
  rewrite split_lf_line by exact Hl. rewrite IH. reflexivity.
Qed.

Lemma replace_char_cons (a b c : ascii) (s : str) :
  replace_char a b (c :: s)
  = (if Ascii.eqb c a then b else c) :: replace_char a b s.
Proof. reflexivity. Qed.

Lemma replace_crlf_lf (s : str) : replace_crlf (LF :: s) = LF :: replace_crlf s.
Proof. reflexivity. Qed.

Lemma replace_crlf_cr_lf (s : str) :
  replace_crlf (CR :: LF :: s) = LF :: replace_crlf s.
Proof. reflexivity. Qed.

Lemma normal_joined_lf (ls : list str) :
  Forall (fun l => no_eol l = true) ls ->
  replace_char CR LF (replace_crlf (joinLines [LF] ls)) = joinLines [LF] ls.
Proof.
  induction 1 as [|l ls Hl _ IH]; [reflexivity|].
  rewrite joinLines_cons, replace_crlf_line by exact Hl.
  cbn [app]. rewrite replace_crlf_lf, replace_cr_line by exact Hl.
  rewrite replace_char_cons, IH. reflexivity.
Qed.

Lemma normal_joined_crlf (ls : list str) :
  Forall (fun l => no_eol l = true) ls ->
  replace_char CR LF (replace_crlf (joinLines [CR; LF] ls))
  = joinLines [LF] ls.
Proof.
  induction 1 as [|l ls Hl _ IH]; [reflexivity|].
  rewrite !joinLines_cons, replace_crlf_line by exact Hl.
  cbn [app]. rewrite replace_crlf_cr_lf, replace_cr_line by exact Hl.
  rewrite replace_char_cons, IH. reflexivity.
Qed.

Lemma joined_cr_head (ls : list str) (d : ascii) (t : str) :
  Forall (fun l => no_eol l = true) ls ->
  joinLines [CR] ls = d :: t -> Ascii.eqb d LF = false.
Proof.
  intros Hall. destruct Hall as [|l ls Hl _]; [discriminate|].
  rewrite joinLines_cons. destruct l as [|c l]; cbn [app].
  - intros [= <- _]. reflexivity.
  - intros [= <- _]. apply no_eol_cons in Hl as (_ & Hlf & _). exact Hlf.
Qed.

Lemma replace_crlf_cr (s : str) :
  (forall d t, s = d :: t -> Ascii.eqb d LF = false) ->
  replace_crlf (CR :: s) = CR :: replace_crlf s.
Proof.
  intros H. destruct s as [|d t]; [reflexivity|].
  cbn [replace_crlf]. rewrite Ascii.eqb_refl, (H d t eq_refl). reflexivity.
Qed.

Lemma normal_joined_cr (ls : list str) :
  Forall (fun l => no_eol l = true) ls ->
  replace_char CR LF (replace_crlf (joinLines [CR] ls)) = joinLines [LF] ls.
Proof.
  intros Hall. induction Hall as [|l ls Hl Hls IH]; [reflexivity|].
  rewrite !joinLines_cons, replace_crlf_line by exact Hl.
  cbn [app].
  rewrite replace_crlf_cr by (intros d t E; exact (joined_cr_head ls d t Hls E)).
  rewrite replace_cr_line by exact Hl.
  rewrite replace_char_cons, IH. reflexivity.
Qed.

(** Unix, Windows and old Mac line endings give the same lines, hence the
    same blocks with the same line numbers: for lines that hold no line
    ending themselves, the text in which each is followed by LF, by CR LF or
    by CR is read as these lines and two empty ones. *)
Theorem line_ending_conventions (ls : list str) :
  Forall (fun l => no_eol l = true) ls ->
  inputLines (joinLines [LF] ls) = ls ++ [[]; []]
  /\ inputLines (joinLines [CR; LF] ls) = ls ++ [[]; []]
  /\ inputLines (joinLines [CR] ls) = ls ++ [[]; []]
  /\ findCommentBlocks (joinLines [CR; LF] ls)
     = findCommentBlocks (joinLines [LF] ls)
  /\ findCommentBlocks (joinLines [CR] ls)
     = findCommentBlocks (joinLines [LF] ls).
Proof.
  intros Hall.
  assert (H1 : inputLines (joinLines [LF] ls) = ls ++ [[]; []]).
  { unfold inputLines. rewrite normal_joined_lf by exact Hall.
    apply lines_of_joined, Hall. }
  assert (H2 : inputLines (joinLines [CR; LF] ls) = ls ++ [[]; []]).
  { unfold inputLines. rewrite normal_joined_crlf by exact Hall.
    apply lines_of_joined, Hall. }
  assert (H3 : inputLines (joinLines [CR] ls) = ls ++ [[]; []]).
  { unfold inputLines. rewrite normal_joined_cr by exact Hall.
    apply lines_of_joined, Hall. }
  unfold findCommentBlocks. rewrite H1, H2, H3. repeat split.
Qed.

Lemma line_ending_conventions_witness :
  let ls : list str := ["/**" : str; " * Title" : str; " */" : str] in
  findCommentBlocks (joinLines [CR; LF] ls)
  = findCommentBlocks (joinLines [LF] ls).
Proof.
  intros ls. apply (line_ending_conventions ls). repeat constructor.
Defined.

(* ===================================================================== *)
(** ** More on the mini-grammar                                           *)
(* ===================================================================== *)

Lemma take_space_spaces (s : str) : forallb is_space (take_space s) = true.
Proof.
  induction s as [|c s IH]; [reflexivity|]. cbn.
  destruct (is_space c) eqn:E; [cbn; rewrite E; exact IH|reflexivity].
Qed.

Lemma drop_space_lead (s : str) : leading_space (drop_space s) = false.
Proof.
  induction s as [|c s IH]; [reflexivity|]. cbn.
  destruct (is_space c) eqn:E; [exact IH|cbn; exact E].
Qed.

(** A match of the separator is white space, the character, white space,
    and stops before a character that is not white space. *)
Lemma match_sep_Some (x : ascii) (s : str) (n : nat) :
  match_sep x s = Some n ->
  exists w1 w2 rest,
    s = w1 ++ x :: w2 ++ rest /\ spaces w1 = true /\ spaces w2 = true
    /\ leading_space rest = false.
Proof.
  unfold match_sep. intros H.
  pose proof (take_drop_space s) as Hs.
  pose proof (take_space_spaces s) as Hw1.
  destruct (take_space s) as [|a w1] eqn:E1; [discriminate|].
  destruct (drop_space s) as [|c r] eqn:E2; [discriminate|].
  destruct (Ascii.eqb c x) eqn:Ec; [|discriminate].
  apply Ascii.eqb_eq in Ec. subst c.
  pose proof (take_drop_space r) as Hr.
  pose proof (take_space_spaces r) as Hw2.
  destruct (take_space r) as [|b w2] eqn:E3; [discriminate|].
  exists (a :: w1), (b :: w2), (drop_space r).
  split; [rewrite Hs; f_equal; f_equal; exact Hr|].
  split; [exact Hw1|]. split; [exact Hw2|apply drop_space_lead].
Qed.

Lemma first_match (m : str -> option nat) (s : str) :
  test_re m s = true ->
  exists p t n,
    s = p ++ t /\ m t = Some n
    /\ forall k, k < length p -> m (drop k s) = None.
Proof.
  induction s as [|c s IH]; intros H.
  - cbn in H. destruct (m []) as [n|] eqn:E; [|discriminate].
    exists [], [], n. split; [reflexivity|]. split; [exact E|].
    intros k Hk. cbn in Hk. lia.
  - cbn [test_re] in H. destruct (m (c :: s)) as [n|] eqn:E.
    + exists [], (c :: s), n. split; [reflexivity|]. split; [exact E|].
      intros k Hk. cbn in Hk. lia.
    + destruct (IH H) as (p & t & n & -> & Ht & Hp).
      exists (c :: p), t, n. split; [reflexivity|]. split; [exact Ht|].
      intros [|k] Hk; [exact E|]. apply Hp. cbn in Hk. lia.
Qed.

Lemma no_match (m : str -> option nat) (s : str) :
  test_re m s = false -> forall k, m (drop k s) = None.
Proof.
  induction s as [|c s IH]; intros H k.
  - cbn in H. destruct (m []) eqn:E; [discriminate|].
    destruct k; exact E.
  - cbn [test_re] in H. destruct (m (c :: s)) eqn:E; [discriminate|].
    destruct k as [|k]; [exact E|]. apply IH, H.
Qed.

Lemma split_whole (x : ascii) (s : str) :
  test_re (match_sep x) s = false -> split (match_sep x) s = [s].
Proof.
  intros H. unfold split.
  rewrite <- (app_nil_r s) at 1.
  rewrite split_re_quiet; [reflexivity|].
  intros k _. rewrite app_nil_r. apply no_match, H.
Qed.

Lemma remove_first_self (s : str) : remove_first s s = [].
Proof.
  rewrite <- (app_nil_r s) at 2. apply remove_first_prefix.
Qed.

Lemma quiet_test (x : ascii) (p : str) :
  quiet x p [] -> test_re (match_sep x) p = false.
Proof.
  induction p as [|c p IH]; intros H; [reflexivity|].
  apply quiet_inv in H as [H0 Hp]. rewrite app_nil_r in H0.
  cbn [test_re]. rewrite H0. apply IH, Hp.
Qed.

(** ** Folding *)

Lemma flush_run_short (run : str) : length (flush_run run) <= 1.
Proof. destruct run as [|a [|b run]]; cbn; lia. Qed.

Lemma sparse_join (x : str) (c : ascii) (r : str) :
  length x <= 1 -> fold_class c = false -> sparse r = true ->
  sparse (x ++ c :: r) = true.
Proof.
  intros Hx Hc Hr.
  assert (Hcr : sparse (c :: r) = true).
  { destruct r as [|d r]; [reflexivity|].
    cbn [sparse]. rewrite Hc. exact Hr. }
  destruct x as [|a [|b x]]; [exact Hcr| |cbn in Hx; lia].
  change (sparse ([a] ++ c :: r))
    with (negb (fold_class a && fold_class c) && sparse (c :: r)).
  rewrite Hc, andb_false_r, Hcr. reflexivity.
Qed.

Lemma collapse_runs_sparse (s : str) : forall run,
  sparse (collapse_runs run s) = true.
Proof.
  induction s as [|c s IH]; intros run; cbn [collapse_runs].
  - destruct run as [|a [|b run]]; reflexivity.
  - destruct (fold_class c) eqn:Hc; [apply IH|].
    apply sparse_join; [apply flush_run_short|exact Hc|apply IH].
Qed.

Lemma flush_run_no_lf (run : str) :
  existsb is_lf run = false -> existsb is_lf (flush_run run) = false.
Proof. destruct run as [|a [|b run]]; cbn; auto. Qed.

Lemma collapse_runs_no_lf (s : str) : forall run,
  existsb is_lf run = false -> existsb is_lf s = false ->
  existsb is_lf (collapse_runs run s) = false.
Proof.
  induction s as [|c s IH]; intros run Hrun Hs; cbn [collapse_runs].
  - apply flush_run_no_lf, Hrun.
  - cbn in Hs. apply orb_false_elim in Hs as [Hc Hs].
    destruct (fold_class c).
    + apply IH; [|exact Hs].
      rewrite existsb_app, Hrun. cbn. rewrite Hc. reflexivity.
    + rewrite existsb_app, (flush_run_no_lf run Hrun). cbn.
      rewrite Hc. apply IH; [reflexivity|exact Hs].
Qed.

Lemma replace_char_absent (a b : ascii) (s : str) :
  Ascii.eqb b a = false ->
  existsb (fun c => Ascii.eqb c a) (replace_char a b s) = false.
Proof.
  intros Hab. induction s as [|c s IH]; [reflexivity|].
  rewrite replace_char_cons. cbn [existsb]. rewrite IH, orb_false_r.
  destruct (Ascii.eqb c a) eqn:E; [exact Hab|exact E].
Qed.

(** A description that holds a line break is folded into one line in which
    no two neighbours are both white space or bars: it has no line feed
    and no run of white space. *)
Theorem folded_description_single_spaced (description : str) :
  existsb is_lf description = true ->
  existsb is_lf (foldDescription description) = false
  /\ sparse (foldDescription description) = true.
Proof.
  intros H. unfold foldDescription. rewrite H.
  split; [|apply collapse_runs_sparse].
  apply collapse_runs_no_lf; [reflexivity|].
  apply (replace_char_absent LF " "%char). reflexivity.
Qed.

Lemma folded_description_single_spaced_witness :
  let description : str :=
    "Use this class" ++ [LF] ++ "      for the   main button" in
  existsb is_lf (foldDescription description) = false
  /\ sparse (foldDescription description) = true.
Proof.
  intros description.
  apply (folded_description_single_spaced description). reflexivity.
Defined.

Section GrammarMore.

Variable markedInline : str -> option str.

Lemma createModifier_pieces (options : Options) (prefix ws1 ws2 desc : str) :
  quiet "-"%char prefix (ws1 ++ "-"%char :: ws2 ++ desc) ->
  spaces ws1 = true -> spaces ws2 = true -> leading_space desc = false ->
  createModifier markedInline options
    (prefix ++ ws1 ++ "-"%char :: ws2 ++ desc)
  = (description ← renderInline markedInline options (foldDescription desc);
     Some {| KssModifier.name := prefix;
             KssModifier.description := description |}).
Proof.
  intros Hq H1 H2 Hd. unfold createModifier, splitLimit.
  rewrite split_first_piece by (assumption || reflexivity).
  cbn [take item nth].
  rewrite remove_first_prefix, strip_dash_sep by assumption.
  reflexivity.
Qed.

Lemma createModifier_whole (options : Options) (entry : str) :
  test_re (match_sep "-"%char) entry = false ->
  createModifier markedInline options entry
  = (description ← renderInline markedInline options [];
     Some {| KssModifier.name := entry;
             KssModifier.description := description |}).
Proof.
  intros H. unfold createModifier, splitLimit.
  rewrite split_whole by exact H. cbn [take item nth].
  rewrite remove_first_self. reflexivity.
Qed.

(** A modifier line [NAME - DESCRIPTION] whose description is on one line
    gives the name and the description as they are: only the first
    separator splits, and a later [" - "] or a run of spaces in the
    description is kept. *)
Theorem createModifier_shape (options : Options) (name ws1 ws2 desc : str) :
  no_space name = true -> spaces ws1 = true -> spaces ws2 = true ->
  leading_space desc = false -> existsb is_lf desc = false ->
  createModifier markedInline options (name ++ ws1 ++ "-" ++ ws2 ++ desc)
  = (description ← renderInline markedInline options desc;
     Some {| KssModifier.name := name;
             KssModifier.description := description |}).
Proof.
  intros Hname H1 H2 Hlead Hline.
  change (name ++ ws1 ++ "-" ++ ws2 ++ desc)
    with (name ++ ws1 ++ "-"%char :: ws2 ++ desc).
  rewrite createModifier_pieces; try assumption.
  - unfold foldDescription. rewrite Hline. reflexivity.
  - apply quiet_token, Hname.
Qed.

(** A line without separator is a name without description, for modifiers
    and for parameters; a parameter line [NAME = DEFAULT] still gives its
    default value. *)
Theorem entry_without_separator (options : Options)
    (entry name ws1 ws2 dflt : str) :
  test_re (match_sep "-"%char) entry = false ->
  no_space name = true -> no_space dflt = true ->
  dflt <> [] -> dflt <> ("-" : str) ->
  spaces ws1 = true -> spaces ws2 = true ->
  createModifier markedInline options entry
  = (description ← renderInline markedInline options [];
     Some {| KssModifier.name := entry;
             KssModifier.description := description |})
  /\ createParameter markedInline options (name ++ ws1 ++ "=" ++ ws2 ++ dflt)
     = (description ← renderInline markedInline options [];
        Some {| KssParameter.name := name;
                KssParameter.defaultValue := dflt;
                KssParameter.description := description |}).
Proof.
  intros Hentry Hname Hdflt Hne Hdash H1 H2.
  split; [apply createModifier_whole, Hentry|].
  change (name ++ ws1 ++ "=" ++ ws2 ++ dflt)
    with (name ++ ws1 ++ "="%char :: ws2 ++ dflt).
  assert (Hq : test_re (match_sep "-"%char)
                 (name ++ ws1 ++ "="%char :: ws2 ++ dflt) = false).
  { apply quiet_test, quiet_name_default; assumption. }
  assert (Hlead : leading_space dflt = false).
  { rewrite <- (app_nil_r dflt). apply no_space_lead; assumption. }
  unfold createParameter, splitLimit.
  rewrite split_whole by exact Hq. cbn [take item nth].
  rewrite remove_first_self.
  rewrite (test_re_app _ name _ _
             (match_sep_here "="%char ws1 ws2 dflt eq_refl H1 H2 Hlead)).
  rewrite split_first_piece; try assumption; try reflexivity.
  2: { apply quiet_token, Hname. }
  rewrite split_token by exact Hdflt. reflexivity.
Qed.

(** Every modifier line splits in three: the name, which no separator
    starts in; nothing, or a separator of white space, a dash and white
    space taken as long as it is; and the description, empty when there is
    no separator, which is then folded and rendered. *)
Theorem createModifier_decomposition (options : Options) (entry : str) :
  exists name sep desc,
    entry = name ++ sep ++ desc
    /\ quiet "-"%char name (sep ++ desc)
    /\ ((sep = [] /\ desc = [])
        \/ (exists w1 w2, sep = w1 ++ "-"%char :: w2
              /\ spaces w1 = true /\ spaces w2 = true
              /\ leading_space desc = false))
    /\ createModifier markedInline options entry
       = (description ←
            renderInline markedInline options (foldDescription desc);
          Some {| KssModifier.name := name;
                  KssModifier.description := description |}).
Proof.
  destruct (test_re (match_sep "-"%char) entry) eqn:Htest.
  - destruct (first_match _ _ Htest) as (p & t & n & -> & Ht & Hp).
    destruct (match_sep_Some _ _ _ Ht) as (w1 & w2 & desc & -> & H1 & H2 & Hd).
    exists p, (w1 ++ "-"%char :: w2), desc.
    assert (Heq : (w1 ++ "-"%char :: w2) ++ desc
                  = w1 ++ "-"%char :: w2 ++ desc).
    { rewrite <- app_assoc. reflexivity. }
    rewrite Heq. split; [reflexivity|]. split; [exact Hp|].
    split; [right; exists w1, w2; auto|].
    apply createModifier_pieces; assumption.
  - exists entry, [], []. rewrite app_nil_r.
    split; [reflexivity|].
    split; [intros k _; rewrite app_nil_r; apply no_match, Htest|].
    split; [left; auto|]. apply createModifier_whole, Htest.
Qed.

Lemma renderInline_is_Some (options : Options) (description : str) :
  (markdown options = true -> forall s, is_Some (markedInline s)) ->
  is_Some (renderInline markedInline options description).
Proof.
  intros H. unfold renderInline.
  destruct (markdown options); [apply H; reflexivity|eexists; reflexivity].
Qed.

(** When Markdown is disabled, or the renderer raises nothing,
    [createModifiers] and [createParameters] raise nothing and return one
    entry for each raw line. *)
Theorem grammar_one_entry_per_line (options : Options) (rawLines : list str) :
  (markdown options = true -> forall s, is_Some (markedInline s)) ->
  exists modifiers parameters,
    createModifiers markedInline rawLines options = Some modifiers
    /\ createParameters markedInline rawLines options = Some parameters
    /\ length modifiers = length rawLines
    /\ length parameters = length rawLines.
Proof.
  intros Hrender.
  assert (Hm : is_Some (createModifiers markedInline rawLines options)).
  { apply mapM_is_Some, Forall_forall. intros entry _.
    unfold compose, createModifier.
    destruct (renderInline_is_Some options
                (foldDescription
                   (strip_dash
                      (remove_first
                         (item 0 (splitLimit (match_sep "-"%char) 1 entry))
                         entry))) Hrender) as [d ->].
    eexists. reflexivity. }
  assert (Hp : is_Some (createParameters markedInline rawLines options)).
  { apply mapM_is_Some, Forall_forall. intros entry _.
    unfold compose, createParameter.
    destruct (renderInline_is_Some options
                (strip_dash
                   (remove_first
                      (item 0 (splitLimit (match_sep "-"%char) 1 entry))
                      entry)) Hrender) as [d ->].
    destruct (test_re _ _); eexists; reflexivity. }
  destruct Hm as [modifiers Hm], Hp as [parameters Hp].
  exists modifiers, parameters. split; [exact Hm|]. split; [exact Hp|].
  split; symmetry; [exact (length_mapM _ _ _ Hm)|exact (length_mapM _ _ _ Hp)].
Qed.

End GrammarMore.

Lemma createModifier_shape_witness :
  let off := {| markdown := false; header := true; custom := [] |} in
  createModifier Some off ".red-yellow   - Color  -  orange"
  = Some {| KssModifier.name := ".red-yellow";
            KssModifier.description := "Color  -  orange" |}.
Proof.
  intros off.
  apply (createModifier_shape Some off
           ".red-yellow" "   " " " "Color  -  orange"); reflexivity.
Defined.

Lemma entry_without_separator_witness :
  let off := {| markdown := false; header := true; custom := [] |} in
  createModifier Some off "a span"
  = Some {| KssModifier.name := "a span"; KssModifier.description := [] |}
  /\ createParameter Some off "@gap = 4px"
     = Some {| KssParameter.name := "@gap";
               KssParameter.defaultValue := "4px";
               KssParameter.description := [] |}.
Proof.
  intros off.
  apply (entry_without_separator Some off "a span" "@gap" " " " " "4px");
    (reflexivity || discriminate).
Defined.

Lemma grammar_one_entry_per_line_witness :
  let off := {| markdown := false; header := true; custom := [] |} in
  let rawLines : list str := [":hover - Highlight" : str; [] ] in
  exists modifiers parameters,
    createModifiers (fun _ => None) rawLines off = Some modifiers
    /\ createParameters (fun _ => None) rawLines off = Some parameters
    /\ length modifiers = length rawLines
    /\ length parameters = length rawLines.
Proof.
  intros off rawLines.
  apply (grammar_one_entry_per_line (fun _ => None) off rawLines).
  discriminate.
Defined.

(* ===================================================================== *)
(** ** More on the weight                                                 *)
(* ===================================================================== *)

Ltac each_char c :=
  destruct c as [[] [] [] [] [] [] [] []].











(** ** A weight tag given several times *)

Lemma digit_numeric (radix : Z) (c : ascii) :
  is_digit radix c = true -> numeric_char c = true.
Proof.
  unfold is_digit, digit.
  each_char c; try reflexivity; cbn; intros H; discriminate H.
Qed.

Lemma digits_numeric_chars (radix : Z) (ds : str) :
  forallb (is_digit radix) ds = true -> forallb numeric_char ds = true.
Proof.
  induction ds as [|c ds IH]; [reflexivity|]. cbn [forallb]. intros H.
  apply andb_prop in H as [Hc Hds].
  rewrite (digit_numeric radix c Hc), IH by exact Hds. reflexivity.
Qed.

Lemma take_digits_numeric (radix : Z) (s : str) :
  forallb numeric_char (take_digits radix s) = true.
Proof.
  induction s as [|c s IH]; [reflexivity|]. cbn [take_digits].
  destruct (is_digit radix c) eqn:E; [|reflexivity].
  cbn [forallb]. rewrite (digit_numeric radix c E), IH. reflexivity.
Qed.

Lemma take_drop_digits (radix : Z) (s : str) :
  s = take_digits radix s ++ drop_digits radix s.
Proof.
  induction s as [|c s IH]; [reflexivity|]. cbn.
  destruct (is_digit radix c); [cbn; f_equal; exact IH|reflexivity].
Qed.

Lemma drop_sign_numeric (s : str) :
  forallb numeric_char (drop_sign s) = true -> forallb numeric_char s = true.
Proof.
  destruct s as [|c s]; [intros; reflexivity|].
  each_char c; try (intros H; exact H); cbn [drop_sign forallb];
    intros ->; reflexivity.
Qed.

Lemma exponentPart_numeric (s : str) :
  exponentPart s = true -> forallb numeric_char s = true.
Proof.
  destruct s as [|c s]; [reflexivity|].
  each_char c; try (intros H; discriminate H);
    cbn [exponentPart forallb]; intros H; apply andb_prop in H as [_ H];
    rewrite (drop_sign_numeric s (digits_numeric_chars 10 _ H)); reflexivity.
Qed.

Lemma starts_with_eq (p s : str) :
  starts_with p s = true -> length s = length p -> s = p.
Proof.
  revert s. induction p as [|a p IH]; intros [|c s]; cbn;
    try discriminate; try reflexivity.
  intros H Hlen. apply andb_prop in H as [Hac Hps].
  apply Ascii.eqb_eq in Hac. subst c. f_equal. apply IH; [exact Hps|lia].
Qed.

Lemma unsigned_numeric (s : str) :
  strUnsignedDecimalLiteral s = true -> forallb numeric_char s = true.
Proof.
  unfold strUnsignedDecimalLiteral.
  destruct (starts_with "Infinity" s && (length s =? 8)%nat) eqn:Einf.
  - intros _. apply andb_prop in Einf as [Hstart Hlen].
    apply Nat.eqb_eq in Hlen.
    rewrite (starts_with_eq "Infinity" s Hstart Hlen). reflexivity.
  - intros H. rewrite (take_drop_digits 10 s), forallb_app.
    rewrite take_digits_numeric. cbn [andb].
    destruct (drop_digits 10 s) as [|d r]; [reflexivity|].
    each_char d;
      try (apply andb_prop in H as [_ H];
           exact (exponentPart_numeric _ H)).
    apply andb_prop in H as [_ H]. cbn [forallb].
    rewrite (take_drop_digits 10 r), forallb_app, take_digits_numeric.
    rewrite (exponentPart_numeric _ H). reflexivity.
Qed.

Lemma numeric_chars (s : str) :
  strNumericLiteral s = true -> forallb numeric_char s = true.
Proof.
  intros H.
  assert (Hdefault : strUnsignedDecimalLiteral (drop_sign s) = true ->
                     forallb numeric_char s = true).
  { intros Hu. apply drop_sign_numeric, unsigned_numeric, Hu. }
  destruct s as [|c1 [|c2 ds]]; try (apply Hdefault; exact H).
  - each_char c1; apply Hdefault; exact H.
  - each_char c1; try (apply Hdefault; exact H).
    each_char c2; try (apply Hdefault; exact H);
      cbn [strNumericLiteral] in H; apply andb_prop in H as [_ H];
      cbn [forallb]; rewrite (digits_numeric_chars _ _ H); reflexivity.
Qed.

Lemma drop_space_keeps (c : ascii) (s : str) :
  is_space c = false -> In c s -> In c (drop_space s).
Proof.
  intros Hc. induction s as [|d s IH]; [intros []|].
  cbn [drop_space]. destruct (is_space d) eqn:Ed; [|intros H; exact H].
  intros [->|H]; [congruence|exact (IH H)].
Qed.

Lemma strip_trailing_space_keeps (c : ascii) (s : str) :
  is_space c = false -> In c s -> In c (strip_trailing_space s).
Proof.
  intros Hc. induction s as [|d s IH]; [intros []|].
  intros Hin. cbn [strip_trailing_space].
  destruct (forallb is_space (d :: s)) eqn:E.
  - rewrite forallb_forall in E. rewrite (E c Hin) in Hc. discriminate.
  - destruct Hin as [->|H]; [left; reflexivity|right; exact (IH H)].
Qed.

Lemma isNaN_comma (s : str) : In ","%char s -> isNaN s = true.
Proof.
  intros Hin. unfold isNaN.
  assert (Ht : In ","%char (strip_trailing_space (drop_space s))).
  { apply strip_trailing_space_keeps; [reflexivity|].
    apply drop_space_keeps; [reflexivity|exact Hin]. }
  destruct (strip_trailing_space (drop_space s)) as [|c t] eqn:E;
    [destruct Ht|].
  destruct (strNumericLiteral (c :: t)) eqn:Hnum; [|reflexivity].
  apply numeric_chars in Hnum. rewrite forallb_forall in Hnum.
  specialize (Hnum _ Ht). discriminate Hnum.
Qed.

(** A weight tag given two or more times has weight 0, whatever its values:
    the values are joined by commas before they are tested, and no number
    is written with a comma. *)
Theorem weight_of_repeated_tag (first second : str) (others : list str) :
  weightOf (Some (TStrings (first :: second :: others))) = Int 0.
Proof.
  unfold weightOf. cbn [toString join].
  rewrite isNaN_comma; [reflexivity|].
  apply in_or_app. right. left. reflexivity.
Qed.

(* ===================================================================== *)
(** ** More on the section builder                                        *)
(* ===================================================================== *)

#[local] Set Warnings "-clear-no-such-hyp".

Lemma customOf_dom (commentObject : CommentObject) (names : list str) :
  forall acc : SectionObject,
  dom (fold_left (customStep commentObject) names acc)
  = (list_to_set names ∖ {[ ("__proto__" : str) ]}) ∪ dom acc.
Proof.
  induction names as [|n names IH]; intros acc; cbn [fold_left list_to_set].
  - set_solver.
  - rewrite IH. unfold customStep.
    destruct (bool_decide (n = ("__proto__" : str))) eqn:E.
    + apply bool_decide_eq_true in E. set_solver.
    + apply bool_decide_eq_false in E.
      unfold set. rewrite dom_insert_L. set_solver.
Qed.

Lemma orEmpty_Some (v : TagValue) : orEmpty (Some v) = v.
Proof. destruct v as [[|c s]|l]; reflexivity. Qed.

Ltac tag_is H :=
  match type of H with
  | _ = ?v =>
      match goal with
      | |- context [orEmpty ?x] => replace x with v by (symmetry; exact H)
      end
  end.

Lemma assembled_dom (options : Options) (comment : Block)
    (commentObject : CommentObject) (sourceFile : SourceFile.t)
    (reference : TagValue) (description : Value)
    (modifiers : list KssModifier.t) (parameters : list KssParameter.t) :
  dom (assembled options comment commentObject sourceFile reference
         description modifiers parameters)
  = list_to_set builtinProperties.
Proof.
  unfold assembled, set. cbv zeta.
  destruct (header options); rewrite !dom_insert_L, dom_empty_L;
    unfold builtinProperties; cbn [list_to_set]; set_solver.
Qed.

Lemma assembled_lookup (options : Options) (comment : Block)
    (commentObject : CommentObject) (sourceFile : SourceFile.t)
    (reference : TagValue) (description : Value)
    (modifiers : list KssModifier.t) (parameters : list KssParameter.t) :
  let s := assembled options comment commentObject sourceFile reference
             description modifiers parameters in
  let tag (k : str) := co_tags commentObject !! k in
  get "raw" s = Some (VString (raw comment))
  /\ get "header" s
     = Some (VString (if header options
                      then replace_char LF " "%char (co_text commentObject)
                      else []))
  /\ get "description" s = Some description
  /\ get "modifiers" s = Some (VModifiers modifiers)
  /\ get "parameters" s = Some (VParameters parameters)
  /\ get "markup" s = Some (ofTag (orEmpty (tag "markup")))
  /\ get "sourceFile" s = Some (VSourceFile sourceFile)
  /\ get "reference" s = Some (ofTag reference)
  /\ get "weight" s = Some (VNumber (weightOf (tag "weight")))
  /\ get "deprecated" s
     = Some (VBoolean (bool_decide (is_Some (tag "deprecated"))))
  /\ get "experimental" s
     = Some (VBoolean (bool_decide (is_Some (tag "experimental")))).
Proof.
  intros s tag. subst s tag. unfold assembled, get, set. cbv zeta.
  destruct (header options);
    repeat split;
    repeat (first [ rewrite lookup_insert_eq; reflexivity
                  | rewrite lookup_insert_ne by discriminate ]).
Qed.

Section ParseMore.

Variable docblockParser_parse : str -> CommentObject.
Variable marked : TagValue -> option str.
Variable markedInline : str -> option str.
Variable path_relative : str -> str -> str.

Abbreviation sectionOf'' :=
  (sectionOf docblockParser_parse marked markedInline path_relative).
Abbreviation parse'' :=
  (parse docblockParser_parse marked markedInline path_relative).

(** What [sectionOf] returns when it returns a section. *)
Lemma sectionOf_emitted (options : Options) (file : File) (comment : Block)
    (newSection : SectionObject) :
  sectionOf'' options file comment = Some (Some newSection) ->
  let commentObject := docblockParser_parse (raw comment) in
  let tag (k : str) := co_tags commentObject !! k in
  exists reference description modifiers parameters,
    tag "styleguide" = Some reference
    /\ reference <> TString []
    /\ (if markdown options
        then VString <$> marked (orEmpty (tag "description"))
        else Some (ofTag (orEmpty (tag "description"))))
       = Some description
    /\ match orEmpty (tag "modifier") with
       | TString [] => Some []
       | _ => createModifiers markedInline
                (concatTag (orEmpty (tag "modifier"))) options
       end = Some modifiers
    /\ match orEmpty (tag "param") with
       | TString [] => Some []
       | _ => createParameters markedInline
                (concatTag (orEmpty (tag "param"))) options
       end = Some parameters
    /\ newSection
       = objectAssign
           (assembled options comment commentObject
              (sourceFileOf path_relative file comment)
              reference description modifiers parameters)
           (customOf commentObject (custom options)).
Proof.
  unfold sectionOf. cbv zeta.
  destruct (co_tags (docblockParser_parse (raw comment)) !! _)
    as [[[|c ref]|refs]|] eqn:Etag; try discriminate.
  all: destruct (if markdown options then _ else _) as [description|] eqn:Ed;
         cbn [mbind option_bind]; [|discriminate].
  all: destruct (match orEmpty (_ !! ("modifier" : str)) with
                 | TString [] => Some []
                 | _ => _
                 end) as [modifiers|] eqn:Em;
         cbn [mbind option_bind]; [|discriminate].
  all: destruct (match orEmpty (_ !! ("param" : str)) with
                 | TString [] => Some []
                 | _ => _
                 end) as [parameters|] eqn:Ep;
         cbn [mbind option_bind]; [|discriminate].
  all: intros [= <-]; eexists _, description, modifiers, parameters;
       (split; [reflexivity|]); (split; [discriminate|]);
       repeat (split; [reflexivity|]); reflexivity.
Qed.

(** A block is ignored exactly when its [styleguide] tag is absent or is
    the empty string; otherwise a section is made or the renderer raises. *)
Theorem ignored_iff_no_reference (options : Options) (file : File)
    (comment : Block) :
  sectionOf'' options file comment = Some None
  <-> (co_tags (docblockParser_parse (raw comment)) !! ("styleguide" : str)
       = None
       \/ co_tags (docblockParser_parse (raw comment)) !! ("styleguide" : str)
          = Some (TString [])).
Proof.
  unfold sectionOf. cbv zeta.
  destruct (co_tags (docblockParser_parse (raw comment)) !! _)
    as [[[|c ref]|refs]|] eqn:Etag.
  - split; auto.
  - split; [|intros [H|H]; discriminate H].
    repeat match goal with
    | |- (?X ≫= _) = _ -> _ =>
        destruct X; cbn [mbind option_bind]; [|discriminate]
    end. discriminate.
  - split; [|intros [H|H]; discriminate H].
    repeat match goal with
    | |- (?X ≫= _) = _ -> _ =>
        destruct X; cbn [mbind option_bind]; [|discriminate]
    end. discriminate.
  - split; auto.
Qed.

(** A section has the eleven properties that [parse] sets and the declared
    custom properties, and no other; the name [__proto__], when declared,
    gives no property. *)
Theorem section_properties (options : Options) (file : File)
    (comment : Block) (newSection : SectionObject) :
  sectionOf'' options file comment = Some (Some newSection) ->
  dom newSection
  = list_to_set builtinProperties
    ∪ (list_to_set (custom options) ∖ {[ ("__proto__" : str) ]}).
Proof.
  intros H.
  destruct (sectionOf_emitted _ _ _ _ H)
    as (reference & description & modifiers & parameters
        & _ & _ & _ & _ & _ & ->).
  unfold objectAssign, customOf.
  rewrite dom_union_L, customOf_dom, assembled_dom, dom_empty_L.
  set_solver.
Qed.

Lemma builtin_kept (options : Options) (commentObject : CommentObject)
    (section : SectionObject) (property : str) :
  ~ In property (custom options) ->
  get property
    (objectAssign section (customOf commentObject (custom options)))
  = get property section.
Proof.
  intros Hnot. unfold get, objectAssign. apply lookup_union_r.
  unfold customOf. rewrite customOf_lookup_notin by exact Hnot.
  apply lookup_empty.
Qed.

(** The custom properties are written onto the section under their own
    names, whatever [parse] had stored there, [weight], [description] or
    [markup] included.  A declared name other than [__proto__] holds the
    value of its tag, a string or the array of a tag given several times;
    without the tag it holds the empty string, or, for the name of a member
    of [Object.prototype], that member.  The name [__proto__] gives the
    section no property.  A property whose name is not declared is as in
    the section built without custom properties. *)
Theorem custom_properties_merged (options : Options) (file : File)
    (comment : Block) (newSection : SectionObject) :
  sectionOf'' options file comment = Some (Some newSection) ->
  let tag (k : str) := co_tags (docblockParser_parse (raw comment)) !! k in
  exists plain,
    sectionOf'' (withCustom options []) file comment = Some (Some plain)
    /\ (forall name, In name (custom options) ->
          name <> ("__proto__" : str) ->
          (forall s, tag name = Some (TString s) ->
             get name newSection = Some (VString s))
          /\ (forall l, tag name = Some (TStrings l) ->
                get name newSection = Some (VArray l))
          /\ (tag name = None -> ~ In name objectPrototype ->
                get name newSection = Some (VString []))
          /\ (tag name = None -> In name objectPrototype ->
                get name newSection = Some (VInherited name)))
    /\ get "__proto__" newSection = None
    /\ (forall property, ~ In property (custom options) ->
          get property newSection = get property plain).
Proof.
  intros Hsection tag.
  assert (Hproto : get "__proto__" newSection = None).
  { destruct (sectionOf_emitted _ _ _ _ Hsection)
      as (reference & description & modifiers & parameters
          & _ & _ & _ & _ & _ & ->).
    unfold get, objectAssign. apply lookup_union_None_2.
    - unfold customOf. rewrite customOf_lookup_proto. apply lookup_empty.
    - apply not_elem_of_dom. rewrite assembled_dom.
      unfold builtinProperties. cbn [list_to_set]. set_solver. }
  rewrite sectionOf_custom in Hsection.
  destruct (sectionOf'' (withCustom options []) file comment)
    as [[plain|]|]; try discriminate.
  injection Hsection as <-. exists plain.
  split; [reflexivity|]. split; [|split; [exact Hproto|]].
  - intros name Hname Hne.
    assert (Hin : get name
                    (objectAssign plain
                       (customOf (docblockParser_parse (raw comment))
                                 (custom options)))
                  = Some (customValue (docblockParser_parse (raw comment))
                            name)).
    { unfold get, objectAssign.
      apply lookup_union_Some_l, customOf_lookup_in; assumption. }
    rewrite Hin. unfold customValue. subst tag. cbv beta.
    split; [|split; [|split]].
    + intros s ->. rewrite orEmpty_Some. reflexivity.
    + intros l ->. reflexivity.
    + intros -> Hnot.
      rewrite bool_decide_eq_false_2; [reflexivity|].
      intros Hin'. apply Hnot, list_elem_of_In, Hin'.
    + intros -> Hmember.
      rewrite bool_decide_eq_true_2; [reflexivity|].
      apply list_elem_of_In, Hmember.
  - intros property Hnot. apply builtin_kept, Hnot.
Qed.

(** The properties of a section, when no custom property has the name of
    one of them: [raw] is the raw content of the block; the header holds
    no line feed, and is empty when headers are disabled; the markup is the
    value of the [markup] tag as it is, a string or an array of strings, and
    the empty string without the tag; [deprecated] and [experimental] tell
    whether the tag is present, whatever its value; without Markdown the
    description is likewise the value of the [description] tag, with
    Markdown it is what the renderer gives for that value; without
    [modifier] or [param] tag the lists are empty. *)
Theorem section_values (options : Options) (file : File) (comment : Block)
    (newSection : SectionObject) :
  sectionOf'' options file comment = Some (Some newSection) ->
  (forall name, In name (custom options) -> ~ In name builtinProperties) ->
  let tag (k : str) := co_tags (docblockParser_parse (raw comment)) !! k in
  get "raw" newSection = Some (VString (raw comment))
  /\ (exists h, get "header" newSection = Some (VString h)
                /\ existsb is_lf h = false
                /\ (header options = false -> h = []))
  /\ ((forall s, tag "markup" = Some (TString s) ->
         get "markup" newSection = Some (VString s))
      /\ (forall l, tag "markup" = Some (TStrings l) ->
            get "markup" newSection = Some (VArray l))
      /\ (tag "markup" = None ->
            get "markup" newSection = Some (VString [])))
  /\ (get "deprecated" newSection = Some (VBoolean true)
      <-> is_Some (tag "deprecated"))
  /\ (get "experimental" newSection = Some (VBoolean true)
      <-> is_Some (tag "experimental"))
  /\ (markdown options = false ->
      (forall s, tag "description" = Some (TString s) ->
         get "description" newSection = Some (VString s))
      /\ (forall l, tag "description" = Some (TStrings l) ->
            get "description" newSection = Some (VArray l))
      /\ (tag "description" = None ->
            get "description" newSection = Some (VString [])))
  /\ (markdown options = true ->
      (forall v, tag "description" = Some v ->
         get "description" newSection = VString <$> marked v)
      /\ (tag "description" = None ->
            get "description" newSection = VString <$> marked (TString [])))
  /\ (tag "modifier" = None ->
      get "modifiers" newSection = Some (VModifiers []))
  /\ (tag "param" = None ->
      get "parameters" newSection = Some (VParameters [])).
Proof.
  intros H Hcustom tag.
  destruct (sectionOf_emitted _ _ _ _ H)
    as (reference & description & modifiers & parameters
        & _ & _ & Hd & Hm & Hp & ->).
  assert (Hkeep : forall property, In property builtinProperties ->
            ~ In property (custom options)).
  { intros property Hin Hc. exact (Hcustom property Hc Hin). }
  destruct (assembled_lookup options comment
              (docblockParser_parse (raw comment))
              (sourceFileOf path_relative file comment)
              reference description modifiers parameters)
    as (Lraw & Lheader & Ldesc & Lmod & Lpar & Lmarkup & _ & _ & _
        & Ldep & Lexp).
  rewrite !builtin_kept by (apply Hkeep; cbn; tauto).
  split; [exact Lraw|]. split.
  { eexists. split; [exact Lheader|]. split.
    - destruct (header options); [|reflexivity].
      apply (replace_char_absent LF " "%char). reflexivity.
    - intros ->. reflexivity. }
  split.
  { rewrite Lmarkup. subst tag. cbv beta. split; [|split].
    - intros s ->. rewrite orEmpty_Some. reflexivity.
    - intros l ->. reflexivity.
    - intros ->. reflexivity. }
  split.
  { rewrite Ldep. split.
    - intros [= Hb]. apply bool_decide_eq_true in Hb. exact Hb.
    - intros Hsome. do 2 f_equal. apply bool_decide_eq_true. exact Hsome. }
  split.
  { rewrite Lexp. split.
    - intros [= Hb]. apply bool_decide_eq_true in Hb. exact Hb.
    - intros Hsome. do 2 f_equal. apply bool_decide_eq_true. exact Hsome. }
  split.
  { intros Hmd. rewrite Hmd in Hd. injection Hd as <-. rewrite Ldesc.
    subst tag. cbv beta. split; [|split].
    - intros s Hs. tag_is Hs. rewrite orEmpty_Some. reflexivity.
    - intros l Hl. tag_is Hl. reflexivity.
    - intros Hnone. tag_is Hnone. reflexivity. }
  split.
  { intros Hmd. rewrite Hmd in Hd. rewrite Ldesc, <- Hd.
    subst tag. cbv beta. split.
    - intros v Hv. tag_is Hv. rewrite orEmpty_Some. reflexivity.
    - intros Hnone. tag_is Hnone. reflexivity. }
  split.
  - intros Hnone. unfold tag in Hnone. rewrite Hnone in Hm. cbn in Hm.
    injection Hm as <-. exact Lmod.
  - intros Hnone. unfold tag in Hnone. rewrite Hnone in Hp. cbn in Hp.
    injection Hp as <-. exact Lpar.
Qed.

(** The source file of a section: the line is that of the block; for an
    input given as a string, name, base and path are empty; for a file
    object without base the name is its path; with a base the name is the
    relative path, in which no backslash is left. *)
Theorem section_source_file (options : Options) (file : File)
    (comment : Block) (newSection : SectionObject) :
  sectionOf'' options file comment = Some (Some newSection) ->
  ~ In ("sourceFile" : str) (custom options) ->
  exists sourceFile,
    get "sourceFile" newSection = Some (VSourceFile sourceFile)
    /\ SourceFile.line sourceFile = line comment
    /\ SourceFile.base sourceFile = orEmptyString (file_base file)
    /\ SourceFile.path sourceFile = orEmptyString (file_path file)
    /\ (file_base file = None \/ file_base file = Some [] ->
        SourceFile.name sourceFile = orEmptyString (file_path file))
    /\ (forall base, file_base file = Some base -> base <> [] ->
        existsb (fun c => Ascii.eqb c "\"%char) (SourceFile.name sourceFile)
        = false).
Proof.
  intros H Hcustom.
  destruct (sectionOf_emitted _ _ _ _ H)
    as (reference & description & modifiers & parameters
        & _ & _ & _ & _ & _ & ->).
  destruct (assembled_lookup options comment
              (docblockParser_parse (raw comment))
              (sourceFileOf path_relative file comment)
              reference description modifiers parameters)
    as (_ & _ & _ & _ & _ & _ & Lsource & _).
  exists (sourceFileOf path_relative file comment).
  rewrite builtin_kept by exact Hcustom.
  split; [exact Lsource|]. split; [reflexivity|].
  split; [reflexivity|]. split; [reflexivity|]. split.
  - intros [Hb|Hb]; unfold sourceFileOf; cbn [SourceFile.name];
      rewrite Hb; reflexivity.
  - intros base Hb Hne. unfold sourceFileOf. cbn [SourceFile.name].
    rewrite Hb. destruct base as [|b0 base]; [congruence|].
    destruct file as [contents|fbase fpath contents]; [discriminate Hb|].
    cbn [file_path].
    apply (replace_char_absent "\"%char "/"%char). reflexivity.
Qed.

(** ** When [parse] raises *)

Lemma createModifiers_total (options : Options) (rawModifiers : list str) :
  (markdown options = true -> forall s, is_Some (markedInline s)) ->
  is_Some (createModifiers markedInline rawModifiers options).
Proof.
  intros Hrender. apply mapM_is_Some, Forall_forall. intros entry _.
  unfold compose, createModifier.
  destruct (renderInline_is_Some markedInline options
              (foldDescription
                 (strip_dash
                    (remove_first
                       (item 0 (splitLimit (match_sep "-"%char) 1 entry))
                       entry))) Hrender) as [d ->].
  eexists. reflexivity.
Qed.

Lemma createParameters_total (options : Options) (rawParameters : list str) :
  (markdown options = true -> forall s, is_Some (markedInline s)) ->
  is_Some (createParameters markedInline rawParameters options).
Proof.
  intros Hrender. apply mapM_is_Some, Forall_forall. intros entry _.
  unfold compose, createParameter.
  destruct (renderInline_is_Some markedInline options
              (strip_dash
                 (remove_first
                    (item 0 (splitLimit (match_sep "-"%char) 1 entry))
                    entry)) Hrender) as [d ->].
  destruct (test_re _ _); eexists; reflexivity.
Qed.

Lemma sectionOf_total (options : Options) (file : File) (comment : Block) :
  (markdown options = true ->
   (forall v, is_Some (marked v)) /\ (forall s, is_Some (markedInline s))) ->
  is_Some (sectionOf'' options file comment).
Proof.
  intros Hrender.
  assert (Hinline : markdown options = true ->
            forall s, is_Some (markedInline s)).
  { intros Hmd. apply Hrender, Hmd. }
  unfold sectionOf. cbv zeta.
  destruct (co_tags (docblockParser_parse (raw comment)) !! _)
    as [[[|c ref]|refs]|]; try (eexists; reflexivity).
  all: assert (Hd : is_Some
         (if markdown options
          then VString <$> marked
                 (orEmpty (co_tags (docblockParser_parse (raw comment))
                           !! ("description" : str)))
          else Some (ofTag
                 (orEmpty (co_tags (docblockParser_parse (raw comment))
                           !! ("description" : str))))))
       by (destruct (markdown options);
           [destruct (proj1 (Hrender eq_refl)
                        (orEmpty (co_tags (docblockParser_parse (raw comment))
                                  !! ("description" : str)))) as [d ->]|];
           eexists; reflexivity).
  all: destruct Hd as [description ->]; cbn [mbind option_bind].
  all: assert (Hm : is_Some
         (match orEmpty (co_tags (docblockParser_parse (raw comment))
                         !! ("modifier" : str)) with
          | TString [] => Some []
          | _ => createModifiers markedInline
                   (concatTag
                      (orEmpty (co_tags (docblockParser_parse (raw comment))
                                !! ("modifier" : str)))) options
          end))
       by (destruct (orEmpty _) as [[|? ?]|?];
           try (eexists; reflexivity);
           apply createModifiers_total, Hinline).
  all: destruct Hm as [modifiers ->]; cbn [mbind option_bind].
  all: assert (Hp : is_Some
         (match orEmpty (co_tags (docblockParser_parse (raw comment))
                         !! ("param" : str)) with
          | TString [] => Some []
          | _ => createParameters markedInline
                   (concatTag
                      (orEmpty (co_tags (docblockParser_parse (raw comment))
                                !! ("param" : str)))) options
          end))
       by (destruct (orEmpty _) as [[|? ?]|?];
           try (eexists; reflexivity);
           apply createParameters_total, Hinline).
  all: destruct Hp as [parameters ->]; cbn [mbind option_bind].
  all: eexists; reflexivity.
Qed.

Lemma parseFiles_total (options : Options) (files : list File) :
  (markdown options = true ->
   (forall v, is_Some (marked v)) /\ (forall s, is_Some (markedInline s))) ->
  is_Some (parseFiles docblockParser_parse marked markedInline path_relative
             options files []).
Proof.
  intros Hrender. induction files as [|file rest IH]; [eexists; reflexivity|].
  cbn [parseFiles]. rewrite parseComments_mapM.
  assert (Hall : is_Some (mapM (sectionOf'' options file)
                            (findCommentBlocks (file_contents file)))).
  { apply mapM_is_Some, Forall_forall. intros comment _.
    apply sectionOf_total, Hrender. }
  destruct Hall as [outcomes ->]. cbn [option_map mbind option_bind].
  rewrite parseFiles_acc. destruct IH as [sections ->].
  eexists. reflexivity.
Qed.

(** [parse] raises only when the Markdown renderer does: with Markdown
    disabled, or with a renderer that raises nothing, it returns a style
    guide for every input. *)
Theorem parse_raises_only_with_renderer (input : Input)
    (options : option RawOptions) :
  (markdown (withDefaults options) = true ->
   (forall v, is_Some (marked v)) /\ (forall s, is_Some (markedInline s))) ->
  is_Some (parse'' input options).
Proof.
  intros Hrender. unfold parse.
  destruct (parseFiles_total (withDefaults options)
              (match input with
               | OneString s => [Contents s]
               | Many l => l
               end) Hrender) as [sections ->].
  eexists. reflexivity.
Qed.

(** ** Sections and blocks *)

Lemma sectionOf_raw (options : Options) (file : File) (comment : Block)
    (newSection : SectionObject) :
  sectionOf'' options file comment = Some (Some newSection) ->
  ~ In ("raw" : str) (custom options) ->
  stringOf (get "raw" newSection) = Some (raw comment).
Proof.
  intros H Hcustom.
  destruct (sectionOf_emitted _ _ _ _ H)
    as (reference & description & modifiers & parameters
        & _ & _ & _ & _ & _ & ->).
  destruct (assembled_lookup options comment
              (docblockParser_parse (raw comment))
              (sourceFileOf path_relative file comment)
              reference description modifiers parameters) as (Lraw & _).
  rewrite builtin_kept by exact Hcustom. rewrite Lraw. reflexivity.
Qed.

Lemma outcomes_sublist (options : Options) (file : File)
    (comments : list Block) : forall outcomes,
  mapM (sectionOf'' options file) comments = Some outcomes ->
  ~ In ("raw" : str) (custom options) ->
  sublist (map (fun s => stringOf (get "raw" s)) (concat (map pushed outcomes)))
          (map (fun b => Some (raw b)) comments).
Proof.
  intros outcomes H Hcustom. apply mapM_Some in H.
  induction H as [|comment outcome comments outcomes Hone _ IH];
    [constructor|].
  cbn [map concat]. destruct outcome as [newSection|]; cbn [pushed app map].
  - rewrite (sectionOf_raw _ _ _ _ Hone Hcustom). apply sublist_skip, IH.
  - apply sublist_cons, IH.
Qed.

Lemma parseFiles_sublist (options : Options) (files : list File) :
  forall sections,
  parseFiles docblockParser_parse marked markedInline path_relative
    options files [] = Some sections ->
  ~ In ("raw" : str) (custom options) ->
  sublist (map (fun s => stringOf (get "raw" s)) sections)
          (flat_map (fun file => map (fun b => Some (raw b))
                                   (findCommentBlocks (file_contents file)))
                    files).
Proof.
  induction files as [|file rest IH]; intros sections H Hcustom.
  - injection H as <-. constructor.
  - cbn [parseFiles] in H. rewrite parseComments_mapM in H.
    destruct (mapM (sectionOf'' options file)
                (findCommentBlocks (file_contents file)))
      as [outcomes|] eqn:Eo; [|discriminate H].
    cbn [option_map mbind option_bind] in H.
    rewrite parseFiles_acc in H.
    destruct (parseFiles docblockParser_parse marked markedInline
                path_relative options rest []) as [more|] eqn:Er;
      [|discriminate H].
    injection H as <-. cbn [flat_map]. rewrite map_app.
    apply sublist_app; [|apply IH; [reflexivity|exact Hcustom]].
    exact (outcomes_sublist options file _ outcomes Eo Hcustom).
Qed.

(** Every section comes from a block of the input, in order: the [raw]
    properties of the sections of a style guide are, in the same order,
    among the raw contents of the blocks of its files, so there are at most
    as many sections as blocks.  Its file list holds the paths of the file
    objects.  A string alone is read as the list of that one string. *)
Theorem sections_come_from_blocks (files : list File)
    (options : option RawOptions) (styleGuide : KssStyleGuide) :
  parse'' (Many files) options = Some styleGuide ->
  ~ In ("raw" : str) (custom (withDefaults options)) ->
  sublist (map (fun s => stringOf (get "raw" s)) (data_sections styleGuide))
          (flat_map (fun file => map (fun b => Some (raw b))
                                   (findCommentBlocks (file_contents file)))
                    files)
  /\ length (data_sections styleGuide)
     <= length (flat_map (fun file => findCommentBlocks (file_contents file))
                         files)
  /\ meta_files styleGuide = omap file_path files
  /\ forall input,
       parse'' (OneString input) options
       = parse'' (Many [Contents input]) options.
Proof.
  intros H Hcustom. unfold parse in H.
  destruct (parseFiles docblockParser_parse marked markedInline
              path_relative (withDefaults options) files [])
    as [found|] eqn:E; [|discriminate H].
  injection H as <-. unfold newKssStyleGuide.
  cbn [data_sections meta_files sections].
  pose proof (parseFiles_sublist _ _ _ E Hcustom) as Hsub.
  split; [exact Hsub|]. split.
  - apply sublist_length in Hsub. rewrite length_map in Hsub.
    etransitivity; [exact Hsub|].
    clear. induction files as [|file rest IH]; [reflexivity|].
    cbn [flat_map]. rewrite !length_app, length_map. lia.
  - split; reflexivity.
Qed.

End ParseMore.

(** ** Instances of the facts on the section builder *)

(** C10.  The failing input: [__proto__] and [constructor] are among the
    declared custom names, and the block has neither tag.  The section
    gains no property [__proto__], since the assignment to that name of
    [custom] calls the setter of [Object.prototype]; and its property
    [constructor] holds the member that the tags inherit, not the empty
    string.  The declared name [author] holds the value of its tag, and
    [weight], declared and without tag, the empty string. *)
Theorem declared_proto_name_not_merged :
  let parser := fun _ : str =>
    {| co_text := "Buttons";
       co_tags := list_to_map
         [ ("styleguide" : str, TString "a.b");
           ("author" : str, TString "Ann") ] |} in
  let options :=
    {| markdown := false; header := true;
       custom := ["author" : str; "__proto__" : str; "constructor" : str;
                  "weight" : str] |} in
  let comment :=
    {| line := 1; text := "Buttons";
       raw := "/**" ++ [LF] ++ " * Buttons" ++ [LF] |} in
  exists newSection,
    sectionOf parser (fun _ => None) (fun _ => None) (fun _ p => p)
      options (Contents []) comment
    = Some (Some newSection)
    /\ get "__proto__" newSection = None
    /\ get "constructor" newSection = Some (VInherited "constructor")
    /\ get "author" newSection = Some (VString "Ann")
    /\ get "weight" newSection = Some (VString []).
Proof.
  intros parser options comment. eexists. split; [reflexivity|].
  repeat split; vm_compute; reflexivity.
Qed.

Lemma section_properties_witness :
  let parser := fun _ : str =>
    {| co_text := "Buttons";
       co_tags := {[ ("styleguide" : str) := TString "a.b" ]} |} in
  let options :=
    {| markdown := false; header := true;
       custom := ["author" : str; "__proto__" : str; "weight" : str] |} in
  let comment :=
    {| line := 1; text := "Buttons";
       raw := "/**" ++ [LF] ++ " * Buttons" ++ [LF] |} in
  exists newSection,
    sectionOf parser (fun _ => None) (fun _ => None) (fun _ p => p)
      options (Contents []) comment
    = Some (Some newSection)
    /\ dom newSection
       = list_to_set builtinProperties
         ∪ (list_to_set (custom options) ∖ {[ ("__proto__" : str) ]}).
Proof.
  intros parser options comment.
  destruct (sectionOf parser (fun _ => None) (fun _ => None) (fun _ p => p)
              options (Contents []) comment)
    as [[newSection|]|] eqn:E; [|discriminate E|discriminate E].
  exists newSection. split; [reflexivity|].
  exact (section_properties parser (fun _ => None) (fun _ => None)
           (fun _ p => p) options (Contents []) comment newSection E).
Defined.

Lemma custom_properties_merged_witness :
  let parser := fun _ : str =>
    {| co_text := "Buttons";
       co_tags := list_to_map
         [ ("styleguide" : str, TString "a.b");
           ("author" : str, TString "Ann");
           ("see" : str, TStrings ["forms" : str; "links" : str]) ] |} in
  let options :=
    {| markdown := false; header := true;
       custom := ["weight" : str; "author" : str; "see" : str;
                  "constructor" : str; "__proto__" : str] |} in
  let comment :=
    {| line := 1; text := "Buttons";
       raw := "/**" ++ [LF] ++ " * Buttons" ++ [LF] |} in
  exists newSection,
    sectionOf parser (fun _ => None) (fun _ => None) (fun _ p => p)
      options (Contents []) comment
    = Some (Some newSection)
    /\ get "weight" newSection = Some (VString [])
    /\ get "author" newSection = Some (VString "Ann")
    /\ get "see" newSection = Some (VArray ["forms" : str; "links" : str])
    /\ get "constructor" newSection = Some (VInherited "constructor")
    /\ get "__proto__" newSection = None
    /\ get "reference" newSection = Some (VString "a.b").
Proof.
  intros parser options comment.
  destruct (sectionOf parser (fun _ => None) (fun _ => None) (fun _ p => p)
              options (Contents []) comment)
    as [[newSection|]|] eqn:E; [|discriminate E|discriminate E].
  exists newSection. split; [reflexivity|].
  destruct (custom_properties_merged parser (fun _ => None) (fun _ => None)
              (fun _ p => p) options (Contents []) comment newSection E)
    as (plain & Hplain & Hin & Hproto & Hother).
  split; [|split; [|split; [|split; [|split]]]].
  - apply (Hin "weight"); [cbn; tauto|discriminate|reflexivity|].
    intros Hmember. cbn in Hmember.
    repeat destruct Hmember as [Hmember|Hmember]; discriminate Hmember
    || exact Hmember.
  - apply (Hin "author"); [cbn; tauto|discriminate|reflexivity].
  - apply (Hin "see"); [cbn; tauto|discriminate|reflexivity].
  - apply (Hin "constructor"); [cbn; tauto|discriminate|reflexivity|].
    left. reflexivity.
  - exact Hproto.
  - rewrite Hother.
    + injection Hplain as <-. reflexivity.
    + intros Hc. cbn in Hc.
      repeat destruct Hc as [Hc|Hc]; discriminate Hc || exact Hc.
Defined.

Lemma section_values_witness :
  let parser := fun _ : str =>
    {| co_text := "Buttons" ++ [LF] ++ "and links";
       co_tags := list_to_map
         [ ("styleguide" : str, TString "a.b");
           ("deprecated" : str, TString []);
           ("description" : str, TString "Two *kinds* of buttons.");
           ("markup" : str, TString "<a class='{{modifier_class}}'/>") ] |} in
  let options := {| markdown := false; header := true; custom := [] |} in
  let comment :=
    {| line := 1; text := "Buttons";
       raw := "/**" ++ [LF] ++ " * Buttons" ++ [LF] |} in
  exists newSection,
    sectionOf parser (fun _ => None) (fun _ => None) (fun _ p => p)
      options (Contents []) comment
    = Some (Some newSection)
    /\ get "raw" newSection = Some (VString (raw comment))
    /\ get "markup" newSection
       = Some (VString "<a class='{{modifier_class}}'/>")
    /\ get "description" newSection
       = Some (VString "Two *kinds* of buttons.")
    /\ get "deprecated" newSection = Some (VBoolean true)
    /\ get "modifiers" newSection = Some (VModifiers []).
Proof.
  intros parser options comment.
  destruct (sectionOf parser (fun _ => None) (fun _ => None) (fun _ p => p)
              options (Contents []) comment)
    as [[newSection|]|] eqn:E; [|discriminate E|discriminate E].
  exists newSection. split; [reflexivity|].
  destruct (section_values parser (fun _ => None) (fun _ => None)
              (fun _ p => p) options (Contents []) comment newSection E)
    as (Hraw & _ & (Hmarkup & _) & Hdep & _ & Hplain & _ & Hmod & _).
  { intros name []. }
  split; [exact Hraw|]. split; [|split; [|split]].
  - apply Hmarkup. reflexivity.
  - apply (Hplain eq_refl). reflexivity.
  - apply Hdep. eexists. reflexivity.
  - apply Hmod. reflexivity.
Defined.

Lemma section_source_file_witness :
  let parser := fun _ : str =>
    {| co_text := "Buttons";
       co_tags := {[ ("styleguide" : str) := TString "a.b" ]} |} in
  let options := {| markdown := false; header := true; custom := [] |} in
  let comment :=
    {| line := 7; text := "Buttons";
       raw := "/**" ++ [LF] ++ " * Buttons" ++ [LF] |} in
  let file := Vinyl (Some ("C:\src" : str)) "C:\src\less\buttons.less" [] in
  exists newSection sourceFile,
    sectionOf parser (fun _ => None) (fun _ => None)
      (fun base path => drop (S (length base)) path) options file comment
    = Some (Some newSection)
    /\ get "sourceFile" newSection = Some (VSourceFile sourceFile)
    /\ SourceFile.line sourceFile = 7
    /\ existsb (fun c => Ascii.eqb c "\"%char) (SourceFile.name sourceFile)
       = false.
Proof.
  intros parser options comment file.
  destruct (sectionOf parser (fun _ => None) (fun _ => None)
              (fun base path => drop (S (length base)) path)
              options file comment)
    as [[newSection|]|] eqn:E; [|discriminate E|discriminate E].
  destruct (section_source_file parser (fun _ => None) (fun _ => None)
              (fun base path => drop (S (length base)) path)
              options file comment newSection E)
    as (sourceFile & Hget & Hline & _ & _ & _ & Hname).
  { intros []. }
  exists newSection, sourceFile. split; [reflexivity|].
  split; [exact Hget|]. split; [exact Hline|].
  apply (Hname ("C:\src" : str)); [reflexivity|discriminate].
Defined.

Lemma parse_raises_only_with_renderer_witness :
  let parser := fun _ : str =>
    {| co_text := "Buttons";
       co_tags := list_to_map
         [ ("styleguide" : str, TString "a.b");
           ("modifier" : str, TString ":hover - Highlight") ] |} in
  let options :=
    Some {| raw_markdown := Some false; raw_header := None;
            raw_custom := None |} in
  is_Some (parse parser (fun _ => None) (fun _ => None) (fun _ p => p)
             (OneString ("/**" ++ [LF] ++ " * Buttons" ++ [LF] ++ " */"))
             options).
Proof.
  intros parser options.
  apply (parse_raises_only_with_renderer parser (fun _ => None)
           (fun _ => None) (fun _ p => p)).
  intros H. discriminate H.
Defined.

Lemma sections_come_from_blocks_witness :
  let parser := fun rawText : str =>
    {| co_text := [];
       co_tags :=
         if includes rawText "@styleguide"
         then {[ ("styleguide" : str) := TString "a.b" ]}
         else ∅ |} in
  let files :=
    [ Contents ("/**" ++ [LF] ++ " * plain" ++ [LF] ++ " */");
      Vinyl None "/tmp/example3"
        ("/**" ++ [LF] ++ " * @styleguide a.b" ++ [LF] ++ " */") ] in
  exists styleGuide,
    parse parser (fun v => Some (toString v)) Some (fun _ p => p)
      (Many files) None
    = Some styleGuide
    /\ length (data_sections styleGuide) <= 2
    /\ meta_files styleGuide = ["/tmp/example3" : str].
Proof.
  intros parser files.
  destruct (parse parser (fun v => Some (toString v)) Some (fun _ p => p)
              (Many files) None)
    as [styleGuide|] eqn:E; [|discriminate E].
  exists styleGuide. split; [reflexivity|].
  destruct (sections_come_from_blocks parser (fun v => Some (toString v))
              Some (fun _ p => p) files None styleGuide E)
    as (_ & Hlen & Hfiles & _).
  { intros []. }
  split; [exact Hlen|exact Hfiles].
Defined.

(* ===================================================================== *)
(** ** Texts put one after the other                                      *)
(* ===================================================================== *)

Lemma step_shift (k i : nat) (l : str) (bs : list Block) (st : Scan) :
  scanInv st ->
  step (k + i) l (shiftScan k bs st) = shiftScan k bs (step i l st).
Proof.
  intros (Hs & Hm & Hi & Hb).
  unfold step, closes. cbn [insideSingleBlock insideMultiBlock
                            insideDocblock shiftScan].
  rewrite Hs, Hm. cbn [orb negb].
  destruct (insideDocblock st) eqn:Hd; cbn [andb].
  - destruct (multiFinish (strip_trailing_space l)).
    + unfold saveBlock, shiftScan. cbn. rewrite Hd.
      rewrite map_app, app_assoc. reflexivity.
    + unfold scanLine. cbn [insideDocblock shiftScan]. rewrite Hd.
      destruct (docblockStart (strip_trailing_space l)).
      * unfold openBlock, shiftScan, shiftBlock. cbn. rewrite Hd. cbn.
        replace (k + (i + 1)) with (k + i + 1) by lia. reflexivity.
      * unfold addLine, shiftScan. cbn. rewrite Hd. reflexivity.
  - unfold scanLine. cbn [insideDocblock insideMultiBlock shiftScan].
    change (multiStart (strip_trailing_space l))
      with (docblockStart (strip_trailing_space l)).
    rewrite Hd, Hm.
    destruct (docblockStart (strip_trailing_space l)).
    + unfold openBlock, shiftScan, shiftBlock. cbn. rewrite Hd. cbn.
      replace (k + (i + 1)) with (k + i + 1) by lia. reflexivity.
    + unfold shiftScan. rewrite Hd. reflexivity.
Qed.

Lemma scan_shift (ls : list str) : forall k i bs st,
  scanInv st ->
  scan (k + i) ls (shiftScan k bs st) = shiftScan k bs (scan i ls st).
Proof.
  induction ls as [|l ls IH]; intros k i bs st Hinv; [reflexivity|].
  cbn [scan]. rewrite step_shift by exact Hinv.
  replace (S (k + i)) with (k + S i) by lia.
  apply IH, step_inv, Hinv.
Qed.

(** Outside a block the loop has nothing but its saved blocks. *)
Lemma idle_shift (k : nat) (st : Scan) :
  scanInv st -> insideDocblock st = false ->
  st = shiftScan k (blocks st) initScan.
Proof.
  intros (Hs & Hm & Hi & Hb) Hd.
  destruct st as [bs b ind single multi doc]. cbn in *. subst.
  unfold shiftScan. cbn. rewrite app_nil_r, (Hb eq_refl). reflexivity.
Qed.

Lemma scan_after_idle (pre post : list str) :
  insideDocblock (scan 0 pre initScan) = false ->
  blocks (scan 0 (pre ++ post) initScan)
  = blocks (scan 0 pre initScan)
    ++ map (shiftBlock (length pre)) (blocks (scan 0 post initScan)).
Proof.
  intros Hidle. rewrite scan_app.
  pose proof (scan_inv pre 0 initScan initScan_inv) as Hinv.
  rewrite (idle_shift (length pre) _ Hinv Hidle) at 1.
  replace (0 + length pre) with (length pre + 0) by lia.
  rewrite (scan_shift post (length pre) 0 _ initScan initScan_inv).
  reflexivity.
Qed.

Lemma blocks_of_lines (ls : list str) :
  Forall (fun l => no_eol l = true) ls ->
  findCommentBlocks (joinLines [LF] ls) = blocks (scan 0 ls initScan).
Proof.
  intros Hall. unfold findCommentBlocks, inputLines.
  rewrite normal_joined_lf, lines_of_joined by exact Hall.
  rewrite scan_app. apply scan_blocks_open.
  - apply scan_inv, initScan_inv.
  - repeat constructor.
Qed.

(** The blocks of two texts put one after the other, when the first does
    not end inside a block: those of the first, then those of the second
    with their line numbers moved down by the lines of the first. *)
Theorem blocks_of_concatenation (ls1 ls2 : list str) :
  Forall (fun l => no_eol l = true) ls1 ->
  Forall (fun l => no_eol l = true) ls2 ->
  insideDocblock (scan 0 ls1 initScan) = false ->
  findCommentBlocks (joinLines [LF] (ls1 ++ ls2))
  = findCommentBlocks (joinLines [LF] ls1)
    ++ map (shiftBlock (length ls1)) (findCommentBlocks (joinLines [LF] ls2)).
Proof.
  intros H1 H2 Hidle.
  rewrite !blocks_of_lines by (try apply Forall_app; auto).
  apply scan_after_idle, Hidle.
Qed.

Lemma blocks_of_concatenation_witness :
  let ls1 : list str := ["/**" : str; " * one" : str; " */" : str; [] ] in
  let ls2 : list str := [".a {}" : str; "/**" : str; " * two" : str;
                         " */" : str] in
  findCommentBlocks (joinLines [LF] (ls1 ++ ls2))
  = [ {| line := 1; text := "one"; raw := "/**" ++ [LF] ++ " * one" ++ [LF] |};
      {| line := 6; text := "two";
         raw := "/**" ++ [LF] ++ " * two" ++ [LF] |} ].
Proof.
  intros ls1 ls2.
  rewrite (blocks_of_concatenation ls1 ls2);
    [reflexivity|repeat constructor|repeat constructor|reflexivity].
Defined.

Lemma textOf_cons_other (l : str) (seg : list str) :
  isStart l = false ->
  textOf (l :: seg)
  = strip_marker (strip_trailing_space l) ++ [LF] ++ textOf seg.
Proof.
  intros H. unfold textOf. cbn [List.filter]. rewrite H. cbn.
  rewrite <- app_assoc. reflexivity.
Qed.

Lemma rawOf_cons (l : str) (seg : list str) :
  rawOf (l :: seg) = strip_trailing_space l ++ [LF] ++ rawOf seg.
Proof. unfold rawOf. cbn. rewrite <- app_assoc. reflexivity. Qed.

(** Inside a block, lines that neither open nor close are added to it. *)
Lemma scan_body (body : list str) : forall i st,
  scanInv st -> insideDocblock st = true ->
  Forall (fun l => isStart l = false /\ isFinish l = false) body ->
  scan i body st
  = {| blocks := blocks st;
       block := {| line := line (block st);
                   text := text (block st) ++ textOf body;
                   raw := raw (block st) ++ rawOf body |};
       indentAmount := indentAmount st;
       insideSingleBlock := insideSingleBlock st;
       insideMultiBlock := insideMultiBlock st;
       insideDocblock := insideDocblock st |}.
Proof.
  induction body as [|l body IH]; intros i st Hinv Hd Hall.
  - cbn. rewrite !app_nil_r. destruct st as [bs [n t r] ? ? ? ?].
    reflexivity.
  - inversion Hall as [|? ? [Hstart Hfinish] Hrest]; subst.
    pose proof Hinv as (Hs & Hm & Hi & Hb).
    assert (Hstep : step i l st
                    = addLine (strip_trailing_space l)
                        (Some (strip_marker (strip_trailing_space l)))
                        (indentAmount st) st).
    { unfold step, closes. unfold isFinish in Hfinish.
      rewrite Hs, Hm, Hfinish, andb_false_r. cbn [orb].
      unfold scanLine. unfold isStart in Hstart. rewrite Hstart, Hd.
      reflexivity. }
    cbn [scan]. rewrite IH; [|apply step_inv, Hinv
                             |rewrite Hstep; exact Hd|exact Hrest].
    rewrite Hstep.
    cbn [addLine blocks block line text raw indentAmount insideSingleBlock
         insideMultiBlock insideDocblock].
    rewrite textOf_cons_other, rawOf_cons by exact Hstart.
    rewrite <- !app_assoc. reflexivity.
Qed.

(** One doc block in a text: lines that do not open a block, an opening
    line, lines that neither open nor close, a closing line, and again
    lines that do not open a block.  The text has exactly one block; its
    line number is that of the opening line; [raw] is the opening line and
    the lines of the body; [text] is the body without its markers and
    without blank lines at both ends. *)
Theorem single_block (before body after : list str) (opening closing : str) :
  Forall (fun l => no_eol l = true)
         (before ++ opening :: body ++ closing :: after) ->
  Forall (fun l => isStart l = false) before ->
  isStart opening = true ->
  Forall (fun l => isStart l = false /\ isFinish l = false) body ->
  isFinish closing = true ->
  Forall (fun l => isStart l = false) after ->
  findCommentBlocks
    (joinLines [LF] (before ++ opening :: body ++ closing :: after))
  = [ {| line := length before + 1;
         text := strip_trailing_lf (strip_leading_lf (textOf body));
         raw := rawOf (opening :: body) |} ].
Proof.
  intros Heol Hbefore Hopen Hbody Hclose Hafter.
  rewrite blocks_of_lines by exact Heol.
  rewrite scan_after_idle by (rewrite scan_idle by exact Hbefore; reflexivity).
  rewrite scan_idle by exact Hbefore. cbn [blocks initScan app].
  cbn [scan].
  assert (Hfirst : step 0 opening initScan
                   = openBlock 0 (strip_trailing_space opening) true initScan).
  { unfold step, closes. cbn. unfold scanLine.
    unfold isStart in Hopen. rewrite Hopen. reflexivity. }
  rewrite Hfirst, scan_app.
  rewrite (scan_body body _
             (openBlock 0 (strip_trailing_space opening) true initScan));
    [|rewrite <- Hfirst; apply step_inv, initScan_inv|reflexivity|exact Hbody].
  cbn [scan].
  match goal with
  | |- context [step ?i closing ?st] =>
      assert (Hlast : step i closing st = saveBlock st)
  end.
  { unfold step, closes. cbn. unfold isFinish in Hclose. rewrite Hclose.
    reflexivity. }
  rewrite Hlast.
  match goal with
  | |- context [scan ?i after (saveBlock ?st)] =>
      replace (saveBlock st)
        with (shiftScan 0 (blocks (saveBlock st)) initScan)
        by (unfold shiftScan, saveBlock; cbn; rewrite ?app_nil_r; reflexivity);
      change i with (0 + i);
      rewrite (scan_shift after 0 i _ initScan initScan_inv)
  end.
  rewrite scan_idle by exact Hafter.
  rewrite rawOf_cons.
  cbn [blocks shiftScan saveBlock initScan map app openBlock block line
       text raw emptyBlock].
  unfold shiftBlock. cbn [line text raw].
  rewrite <- app_assoc. reflexivity.
Qed.

Lemma single_block_witness :
  findCommentBlocks
    (joinLines [LF]
       [".a {}" : str; "/**" : str; " *" : str; " * Buttons" : str;
        "   less" : str; " */" : str; ".b {}" : str])
  = [ {| line := 2;
         text := "Buttons" ++ [LF] ++ "   less";
         raw := "/**" ++ [LF] ++ " *" ++ [LF] ++ " * Buttons" ++ [LF]
                ++ "   less" ++ [LF] |} ].
Proof.
  apply (single_block [".a {}" : str]
           [" *" : str; " * Buttons" : str; "   less" : str]
           [".b {}" : str] "/**" " */");
    repeat constructor.
Defined.
